(** * Verification of the react-hooks collection

    A shallow embedding of the five hooks of the repository
    ([useCounter], [useForm], [useFetch], [useFetchRickAndMorty],
    [useTodo] with [todoReducer]) and the properties stated about them.

    Conventions.
    - A React state cell is a value threaded through the operations; a
      [setState] call is either a plain value or an updater function,
      as in the source.
    - Asynchronous code is split at its [await] points; the settlement
      of the awaited promise is an input event of the model.
    - A JavaScript object used as a dictionary is a [gmap string _]
      of its own properties.
    - A number the hooks compute with is an IEEE 754 double, with the
      operations of [SpecFloat]; a number inside JSON data is kept as
      the decimal written, which stands for the double nearest to
      it. *)

From Stdlib Require Import ZArith Lia Ascii String List Bool DecimalString.
From Stdlib Require Import SpecFloat.
From stdpp Require Import gmap strings list fin_maps.

#[local] Set Warnings "-clear-no-such-hyp".

Local Open Scope Z_scope.

(** * JavaScript values that cross the hooks' boundaries *)

Module JS.

(** A JSON number [mant * 10^expo], before rounding to a double. *)
Record number := Num { mant : Z; expo : Z }.

#[warnings="-register-all"]
Inductive json :=
| JNull
| JBool (b : bool)
| JNum (n : number)
| JStr (s : string)
| JArr (elems : list json)
| JObj (members : list (string * json)).

Definition int (z : Z) : json := JNum (Num z 0).

(** The double nearest to a nonzero decimal is [0] exactly when the
    decimal is at most [2^-1075], half the least subnormal. *)
Definition rounds_to_zero (n : number) : bool :=
  (mant n =? 0) ||
  ((expo n <? 0) && (Z.abs (mant n) * 2 ^ 1075 <=? 10 ^ (- expo n))).

(** [ToBoolean]: the test performed by [if (v)] and by [!!v]. *)
Definition truthy (v : json) : bool :=
  match v with
  | JNull => false
  | JBool b => b
  | JNum n => negb (rounds_to_zero n)
  | JStr s => negb (String.eqb s EmptyString)
  | JArr _ => true
  | JObj _ => true
  end.

(** What a [catch] clause can receive: an [Error] object with its
    [message], or any other thrown value. *)
Inductive thrown :=
| ErrorObject (message : string)
| NonError (v : json).

(** Template-literal rendering of a non-negative integer. *)
Definition decimal (n : N) : string := NilEmpty.string_of_uint (N.to_uint n).

End JS.

(** * The part of React the hooks rely on *)

Module React.

(** The argument of a state setter: a value or an updater. *)
Inductive SetStateAction (S : Type) :=
| Value (v : S)
| Updater (f : S -> S).
Arguments Value {S} v.
Arguments Updater {S} f.

(** The state a cell holds once the queued action is applied. *)
Definition dispatch {S : Type} (a : SetStateAction S) (current : S) : S :=
  match a with
  | Value v => v
  | Updater f => f current
  end.

(** [useState(init)]: the cell's content, or [init] on the first render. *)
Definition useState {S : Type} (init : S) (cell : option S) : S :=
  default init cell.

End React.

(** * useCounter

    A [number] is an IEEE 754 double, with the arithmetic of
    [SpecFloat] at 53 bits of precision: [current + factor] is the
    double nearest to the sum. A default parameter value [x = d] is
    [default d x]. *)

Module Counter.
Import React.

Definition number : Type := spec_float.

(** The number an integer literal denotes. *)
Definition num (z : Z) : number := binary_normalize 53 1024 z 0 false.

Definition add (x y : number) : number := SFadd 53 1024 x y.
Definition sub (x y : number) : number := SFsub 53 1024 x y.

Definition setCounter : SetStateAction number -> number -> number := dispatch.

(** The object returned by one call of the hook. *)
Record api := {
  counter : number;
  increment : option number -> SetStateAction number;
  decrement : option number -> SetStateAction number;
  reset : SetStateAction number
}.

(** [useCounter(initialState = 10)] on a render whose state cell
    holds [cell]; [None] is the first render, where [useState]
    takes its argument. The handlers close over the [initialState]
    of the render that builds them. *)
Definition useCounter (arg : option number) (cell : option number) : api :=
  let initialState := default (num 10) arg in
  let counter := useState initialState cell in
  {| counter := counter;
     increment := fun factor =>
       Updater (fun current => add current (default (num 1) factor));
     decrement := fun factor =>
       Updater (fun current => sub current (default (num 1) factor));
     reset := Value initialState |}.

(** The calls a component can make on the returned object. *)
Inductive op :=
| Increment (factor : option number)
| Decrement (factor : option number)
| Reset.

Definition invoke (h : api) (o : op) : SetStateAction number :=
  match o with
  | Increment f => increment h f
  | Decrement f => decrement h f
  | Reset => reset h
  end.

(** One interaction [(arg, o)]: the component has rendered again,
    calling the hook with [arg], and the handler [o] of that render is
    called. *)
Definition step (cell : number) (c : option number * op) : number :=
  setCounter (invoke (useCounter (fst c) (Some cell)) (snd c)) cell.

(** The first render, with the argument the counter is created with. *)
Definition mount (arg : option number) : number := counter (useCounter arg None).

Definition run (first : option number) (calls : list (option number * op)) : number :=
  fold_left step calls (mount first).

End Counter.

(** * todoReducer *)

Module Todo.

Record Todo := { id : Z; todo : string; done : bool }.

(** The actions [useTodo] dispatches, and any other action kind. *)
Inductive action :=
| Add (payload : Todo)
| Delete (payload : Z)
| Toggle (payload : Z)
| Unknown (type : string).

Definition toggle_one (payload : Z) (t : Todo) : Todo :=
  if id t =? payload
  then {| id := id t; todo := todo t; done := negb (done t) |}
  else t.

Definition todoReducer (state : list Todo) (a : action) : list Todo :=
  match a with
  | Add payload => state ++ [payload]
  | Delete payload => List.filter (fun t => negb (id t =? payload)) state
  | Toggle payload => List.map (toggle_one payload) state
  | Unknown _ => state
  end.

Definition initialState : list Todo := [].

Definition matches (i : Z) (t : Todo) : bool := id t =? i.

Definition todosCount (todos : list Todo) : nat := length todos.
Definition pendingTodosCount (todos : list Todo) : nat :=
  length (List.filter (fun t => negb (done t)) todos).
Definition completedTodosCount (todos : list Todo) : nat :=
  length (List.filter (fun t => done t) todos).

End Todo.

(** * useForm *)

Module Form.
Import JS React.

(** What the change handler reads from [event.target]. *)
Record target := { name : string; value : string }.

Record api := {
  formState : gmap string json;
  onInputChange : target -> SetStateAction (gmap string json);
  onResetForm : SetStateAction (gmap string json)
}.

(** [useForm(form)] on a render whose state cell holds [cell]. The
    object literal [{...current, [name]: value}] is [current] with
    the property [name] set. *)
Definition useForm (form : gmap string json) (cell : option (gmap string json)) : api :=
  let formState := useState form cell in
  {| formState := formState;
     onInputChange := fun t =>
       Updater (fun current => <[name t := JStr (value t)]> current);
     onResetForm := Value form |}.

Inductive op :=
| InputChange (t : target)
| ResetForm.

Definition invoke (h : api) (o : op) : SetStateAction (gmap string json) :=
  match o with
  | InputChange t => onInputChange h t
  | ResetForm => onResetForm h
  end.

Definition step (form : gmap string json) (cell : gmap string json) (o : op)
  : gmap string json :=
  dispatch (invoke (useForm form (Some cell)) o) cell.

Definition mount (form : gmap string json) : gmap string json :=
  formState (useForm form None).

Definition run (form : gmap string json) (ops : list op) : gmap string json :=
  fold_left (step form) ops (mount form).

(** The names typed into the form since it was last reset. *)
Fixpoint touched (ops : list op) (acc : gset string) : gset string :=
  match ops with
  | [] => acc
  | InputChange t :: ops => touched ops ({[name t]} ∪ acc)
  | ResetForm :: ops => touched ops ∅
  end.

Definition names_within (form : gmap string json) (o : op) : Prop :=
  match o with
  | InputChange t => name t ∈ dom form
  | ResetForm => True
  end.

End Form.

(** * The HTTP boundary: how [fetch(url)] and [resp.json()] settle *)

Module Http.
Import JS.

Inductive body_result :=
| BodyJson (v : json)
| BodyError (e : thrown).

Record Response := { status : N; body : body_result }.

(** [resp.ok]: the status is in the range 200-299. *)
Definition ok (resp : Response) : bool :=
  ((200 <=? status resp) && (status resp <=? 299))%N.

Inductive settled :=
| Rejected (e : thrown)
| Fulfilled (resp : Response).

End Http.

(** * useFetch *)

Module Fetch.
Import JS Http.

Record State := {
  data : json;            (* [T | null]; [JNull] is [null] *)
  loading : bool;
  hasError : bool;
  error : option string   (* [None] is [null] *)
}.

(** What [fetchData] reads and writes: the component's state cell and
    the module-level cache object. The cache is the map of the
    object's own properties. A url that is the name of a property
    every object inherits ([constructor], [toString], ...) is outside
    the model: for such a url the source reads the inherited function,
    takes the cache branch and never sends nor stores anything. *)
Record heap := { cell : State; __localCache : gmap string json }.

Inductive outcome (A : Type) :=
| Normal (a : A)
| Throw (e : thrown).
Arguments Normal {A} a.
Arguments Throw {A} e.

Definition M (A : Type) : Type := heap -> outcome A * heap.

Definition ret {A} (a : A) : M A := fun h => (Normal a, h).

Definition bind {A B} (m : M A) (k : A -> M B) : M B :=
  fun h =>
    match m h with
    | (Normal a, h') => k a h'
    | (Throw e, h') => (Throw e, h')
    end.

Definition throw {A} (e : thrown) : M A := fun h => (Throw e, h).

Definition try_catch {A} (m : M A) (handler : thrown -> M A) : M A :=
  fun h =>
    match m h with
    | (Normal a, h') => (Normal a, h')
    | (Throw e, h') => handler e h'
    end.

Notation "'let*' x ':=' m 'in' k" := (bind m (fun x => k))
  (at level 10, x name, m at level 100, k at level 200).
Notation "m '>>' k" := (bind m (fun _ => k))
  (at level 100, k at level 200, right associativity).

Definition setState (s : State) : M unit :=
  fun h => (Normal tt, {| cell := s; __localCache := __localCache h |}).

Definition cache_get (url : string) : M (option json) :=
  fun h => (Normal (__localCache h !! url), h).

Definition cache_set (url : string) (v : json) : M unit :=
  fun h => (Normal tt, {| cell := cell h; __localCache := <[url := v]> (__localCache h) |}).

Definition when (b : bool) (m : M unit) : M unit := if b then m else ret tt.

Definition initial : State :=
  {| data := JNull; loading := true; hasError := false; error := None |}.

Definition setLoadinState : M unit :=
  setState {| data := JNull; loading := true; hasError := false; error := None |}.

(** [await fetch(url)] and [await resp.json()], once settled. *)
Definition await_fetch (s : settled) : M Response :=
  match s with
  | Rejected e => throw e
  | Fulfilled resp => ret resp
  end.

Definition await_json (resp : Response) : M json :=
  match body resp with
  | BodyJson v => ret v
  | BodyError e => throw e
  end.

(** The [try] block up to [await fetch(url)]: [true] when it returned
    from the cache branch, [false] when it goes on to the request.
    [if (__localCache[url])] tests the value read: a missing entry
    reads as [undefined], which is falsy like [0], [false], [null]
    and the empty string. *)
Definition fetchData_try_start (url : string) : M bool :=
  setLoadinState >>
  let* c := cache_get url in
  match c with
  | Some v =>
      if truthy v then
        setState {| data := v; loading := false; hasError := false; error := None |} >>
        ret true
      else ret false
  | None => ret false
  end.

(** The [try] block from the settlement of [fetch(url)] on. *)
Definition fetchData_try_rest (isMounted : bool) (url : string) (s : settled) : M unit :=
  let* resp := await_fetch s in
  when (negb (ok resp))
    (throw (ErrorObject ("HTTP error! status: " +:+ decimal (status resp)))) >>
  let* data := await_json resp in
  when isMounted
    (setState {| data := data; loading := false; hasError := false; error := None |}) >>
  cache_set url data.

(** [error instanceof Error ? error.message : 'An error occurred'] *)
Definition error_text (error : thrown) : string :=
  match error with
  | ErrorObject message => message
  | NonError _ => "An error occurred"
  end.

Definition fetchData_catch {A} (isMounted : bool) (a : A) (error : thrown) : M A :=
  when isMounted
    (setState {| data := JNull; loading := false; hasError := true;
                 error := Some (error_text error) |}) >>
  ret a.

(** [fetchData(isMounted, url)] until it suspends or returns. *)
Definition fetchData_start (isMounted : bool) (url : string) : M bool :=
  try_catch (fetchData_try_start url) (fetchData_catch isMounted true).

(** [fetchData(isMounted, url)] from its resumption to its end. Both
    awaits are taken in one step: nothing the function reads can
    change between them. *)
Definition fetchData_resume (isMounted : bool) (url : string) (s : settled) : M unit :=
  try_catch (fetchData_try_rest isMounted url s) (fetchData_catch isMounted tt).

(** ** Components using the hook

    Each run of the effect declares its own variable [isMounted]; the
    variables live in [vars] and a cleanup function holds the address
    of the one it assigns. [fetchData] receives the variable's value. *)

Record instance := {
  st : State;
  url_arg : string;
  alive : bool;        (* React keeps the cell until the unmount *)
  cleanup : nat        (* address of the current effect's [isMounted] *)
}.

Record request := { owner : nat; req_url : string; req_isMounted : bool }.

Record world := {
  cache : gmap string json;
  instances : list instance;
  vars : list bool;
  pending : list request;
  network : list string     (* the requests sent so far *)
}.

Definition world0 : world :=
  {| cache := ∅; instances := []; vars := []; pending := []; network := [] |}.

(** The effect body for instance [i], whose cell holds [s]:
    [let isMounted = true; fetchData(isMounted, url);]. The call
    runs up to its first [await]; a request it sends joins [pending]
    with the arguments the rest of the call will use. *)
Definition useFetch_effect (i : nat) (s : State) (url : string) (w : world) : world :=
  let addr := length (vars w) in
  let vars1 := vars w ++ [true] in
  let isMounted := default true (vars1 !! addr) in
  let '(r, h) := fetchData_start isMounted url {| cell := s; __localCache := cache w |} in
  let inst := {| st := cell h; url_arg := url; alive := true; cleanup := addr |} in
  let sent := match r with Normal false => true | _ => false end in
  {| cache := __localCache h;
     instances := if decide (i = length (instances w))
                  then instances w ++ [inst] else <[i := inst]> (instances w);
     vars := vars1;
     pending := if sent
                then pending w ++ [{| owner := i; req_url := url; req_isMounted := isMounted |}]
                else pending w;
     network := if sent then network w ++ [url] else network w |}.

(** The function the effect returns: [isMounted = false]. *)
Definition useFetch_cleanup (inst : instance) (w : world) : world :=
  {| cache := cache w; instances := instances w;
     vars := <[cleanup inst := false]> (vars w);
     pending := pending w; network := network w |}.

Inductive event :=
| Mount (url : string)                 (* a component calls the hook for the first time *)
| Rerender (i : nat) (url : string)    (* instance [i] renders with this argument *)
| Unmount (i : nat)
| Settle (k : nat) (s : settled).      (* the [k]-th request in flight settles *)

Definition step (w : world) (e : event) : world :=
  match e with
  | Mount url => useFetch_effect (length (instances w)) initial url w
  | Rerender i url =>
      match instances w !! i with
      | Some inst =>
          if alive inst && negb (String.eqb url (url_arg inst))
          then useFetch_effect i (st inst) url (useFetch_cleanup inst w)
          else w
      | None => w
      end
  | Unmount i =>
      match instances w !! i with
      | Some inst =>
          if alive inst then
            let w1 := useFetch_cleanup inst w in
            {| cache := cache w1;
               instances := <[i := {| st := st inst; url_arg := url_arg inst;
                                      alive := false; cleanup := cleanup inst |}]> (instances w1);
               vars := vars w1; pending := pending w1; network := network w1 |}
          else w
      | None => w
      end
  | Settle k s =>
      match pending w !! k with
      | Some r =>
          match instances w !! owner r with
          | Some inst =>
              let '(_, h) := fetchData_resume (req_isMounted r) (req_url r) s
                               {| cell := st inst; __localCache := cache w |} in
              (* a state update of an unmounted component is dropped *)
              let inst' := {| st := if alive inst then cell h else st inst;
                              url_arg := url_arg inst; alive := alive inst;
                              cleanup := cleanup inst |} in
              {| cache := __localCache h;
                 instances := <[owner r := inst']> (instances w);
                 vars := vars w;
                 pending := delete k (pending w);
                 network := network w |}
          | None => w
          end
      | None => w
      end
  end.

Definition run (evs : list event) : world := fold_left step evs world0.

(** What the hook returns to instance [i]: [{...state}]. *)
Definition state_of (w : world) (i : nat) : option State := st <$> instances w !! i.

(** ** The states the hook passes through, and what holds of them *)

Definition loading_state : State :=
  {| data := JNull; loading := true; hasError := false; error := None |}.
Definition succeeded (v : json) : State :=
  {| data := v; loading := false; hasError := false; error := None |}.
Definition failed (message : string) : State :=
  {| data := JNull; loading := false; hasError := true; error := Some message |}.

Definition with_cell (s : State) (h : heap) : heap :=
  {| cell := s; __localCache := __localCache h |}.

Definition fail_with (isMounted : bool) (e : thrown) (h : heap) : outcome unit * heap :=
  (Normal tt, if isMounted then with_cell (failed (error_text e)) h else h).

(** [loading] comes with no data. *)
Definition tidy (s : State) : Prop := loading s = true -> data s = JNull.

(** What every reachable world satisfies. *)
Record sound (w : world) : Prop := {
  sound_states : Forall (fun inst => tidy (st inst)) (instances w);
  sound_flags : Forall (fun r => req_isMounted r = true) (pending w)
}.

Definition ok200 (v : json) : settled :=
  Fulfilled {| status := 200; body := BodyJson v |}.

End Fetch.

(** * useFetchRickAndMorty *)

Module Query.
Import JS Http.

Record QueryConfig := {
  url : string;
  queryKey : option (list json);
  staleTime : option Z;
  gcTime : option Z;
  retry : option (Z + bool);
  retryDelay : option Z
}.

(** The request [queryFn] sends. *)
Record request := { req_url : string; req_headers : list (string * string) }.

(** The body of [queryFn] from the settlement of its request on:
    the value it resolves with, or the message of the [Error] it
    rejects with. *)
Definition queryFn_rest (s : settled) : json + string :=
  let rethrow (error : thrown) : json + string :=
    inr (match error with
         | ErrorObject message => message
         | NonError _ => "Failed to fetch data"
         end) in
  match s with
  | Rejected e => rethrow e
  | Fulfilled resp =>
      if negb (ok resp)
      then rethrow (ErrorObject ("HTTP error! status: " +:+ decimal (status resp)))
      else match body resp with
           | BodyJson v => inl v
           | BodyError e => rethrow e
           end
  end.

(** The object handed to [useQuery]. *)
Record UseQueryOptions := {
  o_queryKey : list json;
  o_queryFn : request * (settled -> json + string);
  o_staleTime : Z;
  o_gcTime : Z;
  o_retry : Z + bool;
  o_retryDelay : Z;
  o_enabled : bool;
  o_refetchOnWindowFocus : bool
}.

Definition options (c : QueryConfig) : UseQueryOptions :=
  let staleTime := default (1000 * 60 * 5) (staleTime c) in
  let gcTime := default (1000 * 60 * 30) (gcTime c) in
  let retry := default (inl 3) (retry c) in
  let retryDelay := default 1000 (retryDelay c) in
  {| o_queryKey := default [JStr (url c)] (queryKey c);
     o_queryFn := ({| req_url := url c;
                      req_headers := [("Content-Type", "application/json")] |},
                   queryFn_rest);
     o_staleTime := staleTime;
     o_gcTime := gcTime;
     o_retry := retry;
     o_retryDelay := retryDelay;
     o_enabled := negb (negb (truthy (JStr (url c))));
     o_refetchOnWindowFocus := false |}.




End Query.

(** * JSON.parse

    The platform function [useTodo] reads the storage with, over the
    JSON grammar of ECMA-404. Texts are byte strings; [\uXXXX] is
    decoded to the UTF-8 bytes of that code unit. A number is read as
    the decimal written, a [JS.number]: the value JavaScript holds is
    the double nearest to it. *)

Module JSONText.
Import JS.

Local Open Scope char_scope.

Inductive token :=
| TLBracket | TRBracket | TLBrace | TRBrace | TComma | TColon
| TValue (v : json).      (* a literal name, a number or a string *)

Definition code (c : ascii) : N := N_of_ascii c.

Definition quote : ascii := ascii_of_N 34.

Definition is_ws (c : ascii) : bool :=
  match c with
  | " " | "009" | "010" | "013" => true
  | _ => false
  end.

Definition is_digit (c : ascii) : bool := ((48 <=? code c) && (code c <=? 57))%N.
Definition is_lower (c : ascii) : bool := ((97 <=? code c) && (code c <=? 122))%N.
Definition is_control (c : ascii) : bool := (code c <? 32)%N.

Definition digit (c : ascii) : Z := Z.of_N (code c) - 48.

Definition hex (c : ascii) : option N :=
  let n := code c in
  if ((48 <=? n) && (n <=? 57))%N then Some (n - 48)%N
  else if ((65 <=? n) && (n <=? 70))%N then Some (n - 55)%N
  else if ((97 <=? n) && (n <=? 102))%N then Some (n - 87)%N
  else None.

Fixpoint span_digits (s : list ascii) : list ascii * list ascii :=
  match s with
  | c :: r =>
      if is_digit c then let '(ds, rest) := span_digits r in (c :: ds, rest)
      else ([], s)
  | [] => ([], [])
  end.

Definition digits_value (ds : list ascii) : Z :=
  fold_left (fun acc d => 10 * acc + digit d) ds 0.

(** number = [ minus ] int [ frac ] [ exp ] *)
Definition number_of_lexeme (s : list ascii) : option number :=
  let '(sign, s1) := match s with "-" :: r => (-1, r) | _ => (1, s) end in
  let '(int_part, s2) := span_digits s1 in
  match int_part with
  | [] => None
  | "0" :: _ :: _ => None
  | _ =>
      let frac :=
        match s2 with
        | "." :: r =>
            let '(ds, s3) := span_digits r in
            match ds with [] => None | _ => Some (ds, s3) end
        | _ => Some ([], s2)
        end in
      match frac with
      | None => None
      | Some (frac_part, s3) =>
          let exp :=
            match s3 with
            | "e" :: r | "E" :: r =>
                let '(esign, r1) :=
                  match r with
                  | "+" :: r' => (1, r')
                  | "-" :: r' => (-1, r')
                  | _ => (1, r)
                  end in
                let '(ds, s4) := span_digits r1 in
                match ds with [] => None | _ => Some (esign * digits_value ds, s4) end
            | _ => Some (0, s3)
            end in
          match exp with
          | Some (e, []) =>
              Some (Num (sign * digits_value (int_part ++ frac_part))
                        (e - Z.of_nat (length frac_part)))
          | _ => None
          end
      end
  end.

Definition utf8 (u : N) : list ascii :=
  (if u <? 128 then [ascii_of_N u]
   else if u <? 2048 then [ascii_of_N (192 + u / 64); ascii_of_N (128 + u mod 64)]
   else [ascii_of_N (224 + u / 4096); ascii_of_N (128 + (u / 64) mod 64);
         ascii_of_N (128 + u mod 64)])%N.

(** The scanner reads one character at a time; accumulators are
    kept in reverse. *)
Inductive lex_state :=
| Idle
| InWord (acc : list ascii)
| InNumber (acc : list ascii)
| InString (acc : list ascii)
| InEscape (acc : list ascii)
| InUnicode (acc : list ascii) (digits : list N).

Definition idle_step (c : ascii) : option (lex_state * list token) :=
  if is_ws c then Some (Idle, [])
  else if is_digit c then Some (InNumber [c], [])
  else if is_lower c then Some (InWord [c], [])
  else if Ascii.eqb c quote then Some (InString [], [])
  else match c with
       | "[" => Some (Idle, [TLBracket])
       | "]" => Some (Idle, [TRBracket])
       | "{" => Some (Idle, [TLBrace])
       | "}" => Some (Idle, [TRBrace])
       | "," => Some (Idle, [TComma])
       | ":" => Some (Idle, [TColon])
       | "-" => Some (InNumber [c], [])
       | _ => None
       end.

Definition close_word (acc : list ascii) : option token :=
  let w := string_of_list_ascii (rev acc) in
  if String.eqb w "null" then Some (TValue JNull)
  else if String.eqb w "true" then Some (TValue (JBool true))
  else if String.eqb w "false" then Some (TValue (JBool false))
  else None.

Definition close_number (acc : list ascii) : option token :=
  match number_of_lexeme (rev acc) with
  | Some n => Some (TValue (JNum n))
  | None => None
  end.

Definition is_number_char (c : ascii) : bool :=
  is_digit c ||
  match c with "." | "e" | "E" | "+" | "-" => true | _ => false end.

Definition unescape (c : ascii) : option ascii :=
  if Ascii.eqb c quote then Some c else
  match c with
  | "\" | "/" => Some c
  | "b" => Some "008"
  | "f" => Some "012"
  | "n" => Some "010"
  | "r" => Some "013"
  | "t" => Some "009"
  | _ => None
  end.

(** After a word or a number ends, the character that ended it is
    read again from the idle state. *)
Definition reread (t : option token) (c : ascii) : option (lex_state * list token) :=
  match t, idle_step c with
  | Some t, Some (st, ts) => Some (st, t :: ts)
  | _, _ => None
  end.

Definition lex_step (st : lex_state) (c : ascii) : option (lex_state * list token) :=
  match st with
  | Idle => idle_step c
  | InWord acc =>
      if is_lower c then Some (InWord (c :: acc), []) else reread (close_word acc) c
  | InNumber acc =>
      if is_number_char c then Some (InNumber (c :: acc), [])
      else reread (close_number acc) c
  | InString acc =>
      if Ascii.eqb c quote
      then Some (Idle, [TValue (JStr (string_of_list_ascii (rev acc)))])
      else match c with
           | "\" => Some (InEscape acc, [])
           | _ => if is_control c then None else Some (InString (c :: acc), [])
           end
  | InEscape acc =>
      match c with
      | "u" => Some (InUnicode acc [], [])
      | _ => match unescape c with
             | Some c' => Some (InString (c' :: acc), [])
             | None => None
             end
      end
  | InUnicode acc ds =>
      match hex c, ds with
      | Some d, [d2; d1; d0] =>
          Some (InString (rev (utf8 (d + 16 * d2 + 256 * d1 + 4096 * d0)%N) ++ acc), [])
      | Some d, _ => Some (InUnicode acc (d :: ds), [])
      | None, _ => None
      end
  end.

Definition lex_end (st : lex_state) : option (list token) :=
  match st with
  | Idle => Some []
  | InWord acc => (fun t => [t]) <$> close_word acc
  | InNumber acc => (fun t => [t]) <$> close_number acc
  | _ => None
  end.

Fixpoint lex (st : lex_state) (s : list ascii) : option (list token) :=
  match s with
  | [] => lex_end st
  | c :: r =>
      match lex_step st c with
      | Some (st', ts) => (fun l => ts ++ l) <$> lex st' r
      | None => None
      end
  end.

(** The containers that are open, innermost first. *)
Inductive frame :=
| FArr (elems : list json)
| FObj (members : list (string * json))
| FMember (members : list (string * json)) (key : string).

Inductive mode :=
| ExpValue
| ExpValueOrClose
| ExpKeyOrClose
| ExpKey
| ExpColon (key : string)
| ExpCommaOrClose
| Finished (v : json).

Definition deliver (v : json) (stack : list frame) : option (mode * list frame) :=
  match stack with
  | [] => Some (Finished v, [])
  | FArr es :: st => Some (ExpCommaOrClose, FArr (v :: es) :: st)
  | FMember ms k :: st => Some (ExpCommaOrClose, FObj ((k, v) :: ms) :: st)
  | FObj _ :: _ => None
  end.

Definition close_array (stack : list frame) : option (mode * list frame) :=
  match stack with
  | FArr es :: st => deliver (JArr (rev es)) st
  | _ => None
  end.

Definition close_object (stack : list frame) : option (mode * list frame) :=
  match stack with
  | FObj ms :: st => deliver (JObj (rev ms)) st
  | _ => None
  end.

Definition parse_step (m : mode) (stack : list frame) (t : token)
  : option (mode * list frame) :=
  match m, t with
  | (ExpValue | ExpValueOrClose), TValue v => deliver v stack
  | (ExpValue | ExpValueOrClose), TLBracket => Some (ExpValueOrClose, FArr [] :: stack)
  | (ExpValue | ExpValueOrClose), TLBrace => Some (ExpKeyOrClose, FObj [] :: stack)
  | ExpValueOrClose, TRBracket => close_array stack
  | (ExpKeyOrClose | ExpKey), TValue (JStr k) => Some (ExpColon k, stack)
  | ExpKeyOrClose, TRBrace => close_object stack
  | ExpColon k, TColon =>
      match stack with
      | FObj ms :: st => Some (ExpValue, FMember ms k :: st)
      | _ => None
      end
  | ExpCommaOrClose, TComma =>
      match stack with
      | FArr _ :: _ => Some (ExpValue, stack)
      | FObj _ :: _ => Some (ExpKey, stack)
      | _ => None
      end
  | ExpCommaOrClose, TRBracket => close_array stack
  | ExpCommaOrClose, TRBrace => close_object stack
  | _, _ => None
  end.

Fixpoint parse_tokens (m : mode) (stack : list frame) (ts : list token) : option json :=
  match ts with
  | [] => match m with Finished v => Some v | _ => None end
  | t :: ts =>
      match parse_step m stack t with
      | Some (m', stack') => parse_tokens m' stack' ts
      | None => None
      end
  end.

(** [Some v] when the text is a JSON text for [v]; [None] when
    [JSON.parse] raises its [SyntaxError]. *)
Definition parse (text : string) : option json :=
  match lex Idle (list_ascii_of_string text) with
  | Some ts => parse_tokens ExpValue [] ts
  | None => None
  end.

End JSONText.

(** * useTodo: the first render *)

Module TodoHook.
Import JS.

Inductive exn := SyntaxError | TypeError.

Inductive outcome (A : Type) :=
| Normal (a : A)
| Throw (e : exn).
Arguments Normal {A} a.
Arguments Throw {A} e.

Definition and_then {A B} (m : outcome A) (k : A -> outcome B) : outcome B :=
  match m with
  | Normal a => k a
  | Throw e => Throw e
  end.

Definition JSON_parse (text : string) : outcome json :=
  match JSONText.parse text with
  | Some v => Normal v
  | None => Throw SyntaxError
  end.

(** [localStorage.getItem(key)]: [None] is [null]. *)
Definition getItem (localStorage : gmap string string) (key : string) : option string :=
  localStorage !! key.

(** [a || b] for [a : string | null]: [b] when [a] is falsy. *)
Definition or_else (a : option string) (b : string) : string :=
  match a with
  | Some s => if truthy (JStr s) then s else b
  | None => b
  end.

(** [init] takes no parameter and reads the global [localStorage]. *)
Definition init (localStorage : gmap string string) : outcome json :=
  JSON_parse (or_else (getItem localStorage "todos") "[]").

(** [useReducer(reducer, initialArg, init)] on the first render: the
    state is [init(initialArg)], and what [init] raises is raised. The
    state has the type of what [init] returns: [JSON.parse] is
    untyped. *)
Definition useReducer_first {S A I T : Type} (reducer : S -> A -> S) (initialArg : I)
    (init : I -> outcome T) : outcome T := init initialArg.

(** The own property [k] of a parsed object; of members with the same
    name the last one counts. *)
Definition field (k : string) (ms : list (string * json)) : option json :=
  snd <$> List.find (fun m => String.eqb (fst m) k) (rev ms).

(** [todo.done] as a condition, for an element of the parsed array:
    reading a property of [null] raises, an object gives its member
    (or [undefined]), and a number, a boolean, a string or an array
    has no property [done]. *)
Definition done_of (todo : json) : outcome bool :=
  match todo with
  | JNull => Throw TypeError
  | JObj ms =>
      Normal (match field "done" ms with
              | Some v => truthy v
              | None => false
              end)
  | _ => Normal false
  end.

(** [elems.filter(keep).length] *)
Fixpoint filter_length (keep : json -> outcome bool) (elems : list json) : outcome nat :=
  match elems with
  | [] => Normal 0%nat
  | v :: elems =>
      and_then (keep v) (fun b =>
      and_then (filter_length keep elems) (fun n =>
      Normal (if b then S n else n)))
  end.

(** What the hook returns, the three handlers left out. *)
Record result := {
  todos : json;
  todosCount : nat;
  pendingTodosCount : nat;
  completedTodosCount : nat
}.

(** The first call of [useTodo()]. The state is what [init] returns.
    When it is not an array, building the returned object raises:
    [todos.length] for [null], and [todos.filter(...)], which is not a
    function, for any other value. The effect that writes the
    storage runs after the render and is no part of it. *)
Definition useTodo_first (localStorage : gmap string string) : outcome result :=
  and_then (useReducer_first Todo.todoReducer Todo.initialState
              (fun _ => init localStorage)) (fun todos =>
  match todos with
  | JArr elems =>
      and_then (filter_length (fun todo => and_then (done_of todo)
                                 (fun d => Normal (negb d))) elems) (fun pending =>
      and_then (filter_length done_of elems) (fun completed =>
      Normal {| todos := todos;
                todosCount := length elems;
                pendingTodosCount := pending;
                completedTodosCount := completed |}))
  | _ => Throw TypeError
  end).

(** The actions the three handlers dispatch; [now] is
    [new Date().getTime()]. *)
Definition onNewTodo (now : Z) (todo : string) : Todo.action :=
  Todo.Add {| Todo.id := now; Todo.todo := todo; Todo.done := false |}.
Definition onDeleteTodo (id : Z) : Todo.action := Todo.Delete id.
Definition onToggleTodo (id : Z) : Todo.action := Todo.Toggle id.

(** Reading a parsed value as a [Todo[]], for the values that are
    plainly one. *)
Definition as_todo (v : json) : option Todo.Todo :=
  match v with
  | JObj ms =>
      match field "id" ms, field "todo" ms, field "done" ms with
      | Some (JNum (Num i 0)), Some (JStr s), Some (JBool d) =>
          Some {| Todo.id := i; Todo.todo := s; Todo.done := d |}
      | _, _, _ => None
      end
  | _ => None
  end.

Definition as_todos (v : json) : option (list Todo.Todo) :=
  match v with
  | JArr vs => mapM as_todo vs
  | _ => None
  end.

(** An element the filters can read. *)
Definition readable (v : json) : Prop := v <> JNull.

End TodoHook.

(** * Concrete inputs used below *)

Module Samples.
Import JS.

Definition twins : list Todo.Todo :=
  [ {| Todo.id := 5; Todo.todo := "milk"; Todo.done := false |};
    {| Todo.id := 8; Todo.todo := "eggs"; Todo.done := false |};
    {| Todo.id := 5; Todo.todo := "bread"; Todo.done := true |} ].

Definition login : gmap string json :=
  <["email" := JStr EmptyString]> (<["password" := JStr EmptyString]> ∅).

Definition only_url (u : string) : Query.QueryConfig :=
  {| Query.url := u; Query.queryKey := None; Query.staleTime := None;
     Query.gcTime := None; Query.retry := None; Query.retryDelay := None |}.


Definition quoted (s : string) : string :=
  String JSONText.quote (s +:+ String JSONText.quote EmptyString).

(** What the hook stores for the list with the one todo [buy milk]. *)
Definition stored : string :=
  "[{" +:+ quoted "id" +:+ ":1700000000000," +:+ quoted "todo" +:+ ":"
  +:+ quoted "buy milk" +:+ "," +:+ quoted "done" +:+ ":false}]".

Definition milk : Todo.Todo :=
  {| Todo.id := 1700000000000; Todo.todo := "buy milk"; Todo.done := false |}.

End Samples.

(** * Definitions for the further properties *)

(** ** todoReducer: the ids of a list *)

Module TodoIds.
Import Todo.

Definition ids (state : list Todo) : list Z := List.map id state.

Definition has_id (i : Z) (state : list Todo) : Prop := In i (ids state).

End TodoIds.

(** ** useFetch: the three shapes of a state *)

Module FetchShape.
Import JS Http Fetch.


(** The settlements from which [fetchData] takes data. *)
Definition carries (s : settled) (v : json) : Prop :=
  exists resp, s = Fulfilled resp /\ ok resp = true /\ body resp = BodyJson v.

(** The names every object inherits from [Object.prototype]: for
    these [__localCache[url]] reads the inherited member, a function
    or an object, whatever the cache holds. *)
Definition inherited (url : string) : bool :=
  existsb (String.eqb url)
    ["constructor"; "hasOwnProperty"; "isPrototypeOf"; "propertyIsEnumerable";
     "toLocaleString"; "toString"; "valueOf"; "__proto__";
     "__defineGetter__"; "__defineSetter__"; "__lookupGetter__"; "__lookupSetter__"].

(** Whether the cache branch is taken for [url]: the value read is
    truthy. *)
Definition served (w : world) (url : string) : bool :=
  inherited url ||
  match cache w !! url with
  | Some v => truthy v
  | None => false
  end.


(** The events at which the effect can run. *)
Definition renders (e : event) : bool :=
  match e with
  | Mount _ | Rerender _ _ => true
  | _ => false
  end.

(** The component an event is about. *)
Definition concerns (w : world) (e : event) (i : nat) : Prop :=
  match e with
  | Mount _ => i = length (instances w)
  | Rerender j _ => j = i
  | Unmount _ => False
  | Settle k _ => exists r, pending w !! k = Some r /\ owner r = i
  end.

End FetchShape.

(** * Properties of useCounter *)

Module CounterProps.
Import Counter.

Lemma counter_step_increment arg c f :
  step c (arg, Increment f) = add c (default (num 1) f).
Proof. reflexivity. Qed.

Lemma counter_step_decrement arg c f :
  step c (arg, Decrement f) = sub c (default (num 1) f).
Proof. reflexivity. Qed.

Lemma counter_step_reset arg c : step c (arg, Reset) = default (num 10) arg.
Proof. reflexivity. Qed.

Lemma run_snoc first calls c : run first (calls ++ [c]) = step (run first calls) c.
Proof. unfold run. now rewrite fold_left_app. Qed.

(** C6, as the code has it. The hook starts at its argument (10 when
    omitted); [increment(f)] sets the counter to [current + f] and
    [decrement(f)] to [current - f] in the arithmetic of doubles (with
    [f] = 1 when omitted); [reset()] sets it to the argument of the
    render that built the handler (10 when omitted), whatever was done
    before, and so to the value the counter was created with whenever
    that render received the argument of the first one. From 10,
    [increment()], [increment(5)], [decrement(3)] gives 13 and
    [reset()] then 10. *)
Theorem counter_operations :
  (forall i, run (Some i) [] = i) /\
  run None [] = num 10 /\
  (forall first calls arg f,
     run first (calls ++ [(arg, Increment (Some f))]) = add (run first calls) f) /\
  (forall first calls arg,
     run first (calls ++ [(arg, Increment None)]) = add (run first calls) (num 1)) /\
  (forall first calls arg f,
     run first (calls ++ [(arg, Decrement (Some f))]) = sub (run first calls) f) /\
  (forall first calls arg,
     run first (calls ++ [(arg, Decrement None)]) = sub (run first calls) (num 1)) /\
  (forall first calls arg,
     run first (calls ++ [(arg, Reset)]) = default (num 10) arg) /\
  (forall first calls, run first (calls ++ [(first, Reset)]) = run first []) /\
  run None [(None, Increment None); (None, Increment (Some (num 5)));
            (None, Decrement (Some (num 3)))] = num 13 /\
  run None [(None, Increment None); (None, Increment (Some (num 5)));
            (None, Decrement (Some (num 3))); (None, Reset)] = num 10.
Proof.
  repeat split; intros; try reflexivity; rewrite run_snoc; reflexivity.
Qed.

(** C6 as stated fails. A counter created with 10 whose component
    renders again with 20 is reset to 20, not to the value it was
    created with; and the sums are those of doubles: from [2^53 - 1],
    adding 2 and subtracting 2 does not give back the value. *)
Lemma counter_counterexample :
  run (Some (num 10)) [(Some (num 20), Increment None); (Some (num 20), Reset)] = num 20 /\
  run (Some (num 10)) [(Some (num 20), Increment None); (Some (num 20), Reset)]
  <> run (Some (num 10)) [] /\
  run (Some (num (2 ^ 53 - 1)))
    [(Some (num (2 ^ 53 - 1)), Increment (Some (num 2)));
     (Some (num (2 ^ 53 - 1)), Decrement (Some (num 2)))]
  = num (2 ^ 53 - 2).
Proof. vm_compute. repeat split. discriminate. Qed.

Example decrement_below_zero :
  run (Some (num 0)) [(Some (num 0), Decrement None)] = num (-1).
Proof. reflexivity. Qed.

End CounterProps.

(** * Properties of todoReducer *)

Module TodoProps.
Import Todo Samples.

Lemma toggle_one_twice i t : toggle_one i (toggle_one i t) = t.
Proof.
  unfold toggle_one. destruct (id t =? i) eqn:E; cbn; rewrite ?E; [|reflexivity].
  destruct t as [n s d]; cbn. now rewrite negb_involutive.
Qed.

Lemma toggle_one_other i t : id t <> i -> toggle_one i t = t.
Proof. intros H. unfold toggle_one. now apply Z.eqb_neq in H as ->. Qed.

Lemma toggle_one_match i t :
  id t = i -> toggle_one i t = {| id := id t; todo := todo t; done := negb (done t) |}.
Proof. intros H. unfold toggle_one. now apply Z.eqb_eq in H as ->. Qed.

Lemma toggle_lookup (state : list Todo) i n :
  todoReducer state (Toggle i) !! n = toggle_one i <$> state !! n.
Proof. cbn. apply list_lookup_fmap. Qed.

Lemma delete_keeps (state : list Todo) i t :
  In t (todoReducer state (Delete i)) <-> In t state /\ id t <> i.
Proof.
  cbn. rewrite filter_In, negb_true_iff, Z.eqb_neq. reflexivity.
Qed.

Lemma delete_length (state : list Todo) i :
  (length (todoReducer state (Delete i)) + length (List.filter (matches i) state)
   = length state)%nat.
Proof.
  cbn. induction state as [|t state IH]; cbn; [reflexivity|].
  unfold matches at 1. destruct (id t =? i); cbn; lia.
Qed.

(** C9. Toggling twice with the same id gives back the list: one
    toggle flips the [done] flag of each todo with that id and leaves
    the others as they are, and a toggle with an id that no todo has
    leaves the list unchanged. *)
Theorem toggle_involution :
  (forall state i,
      todoReducer (todoReducer state (Toggle i)) (Toggle i) = state) /\
  (forall (state : list Todo) i n t, state !! n = Some t ->
      todoReducer state (Toggle i) !! n =
      Some (if id t =? i
            then {| id := id t; todo := todo t; done := negb (done t) |}
            else t)) /\
  (forall state i, (forall t, In t state -> id t <> i) ->
      todoReducer state (Toggle i) = state).
Proof.
  split; [|split].
  - intros state i. cbn. rewrite List.map_map.
    rewrite <- (List.map_id state) at 2.
    apply List.map_ext. intros t. apply toggle_one_twice.
  - intros state i n t H. rewrite toggle_lookup, H. reflexivity.
  - intros state i H. cbn. rewrite <- (List.map_id state) at 2.
    apply List.map_ext_in. intros t Ht. apply toggle_one_other. now apply H.
Qed.

Lemma toggle_involution_witness :
  todoReducer [{| id := 7; todo := "a"; done := true |}] (Toggle 3)
  = [{| id := 7; todo := "a"; done := true |}].
Proof.
  apply (proj2 (proj2 toggle_involution)).
  intros t [<-|[]]. cbn. lia.
Defined.

(** C10. When several todos share an id, a delete with that id
    removes every one of them and keeps the others, and a toggle with
    that id flips the [done] flag of every one of them and of no
    other todo. *)
Theorem duplicate_ids_all_matches (state : list Todo) (i : Z) :
  (1 < length (List.filter (matches i) state))%nat ->
  (forall t, In t (todoReducer state (Delete i)) -> id t <> i) /\
  (forall t, In t state -> id t <> i -> In t (todoReducer state (Delete i))) /\
  (length (todoReducer state (Delete i)) + length (List.filter (matches i) state)
   = length state)%nat /\
  (forall n t, state !! n = Some t -> id t = i ->
      todoReducer state (Toggle i) !! n
      = Some {| id := id t; todo := todo t; done := negb (done t) |}) /\
  (forall n t, state !! n = Some t -> id t <> i ->
      todoReducer state (Toggle i) !! n = Some t).
Proof.
  intros _. repeat split.
  - intros t Ht. now apply delete_keeps in Ht.
  - intros t Ht Hne. now apply delete_keeps.
  - apply delete_length.
  - intros n t Hn Hi. rewrite toggle_lookup, Hn. cbn. now rewrite toggle_one_match.
  - intros n t Hn Hi. rewrite toggle_lookup, Hn. cbn. now rewrite toggle_one_other.
Qed.

Lemma duplicate_ids_all_matches_witness :
  (1 < length (List.filter (matches 5) twins))%nat /\
  todoReducer twins (Toggle 5) !! 2%nat
  = Some {| id := 5; todo := "bread"; done := false |}.
Proof.
  assert (H : (1 < length (List.filter (matches 5) twins))%nat) by (cbn; lia).
  split; [exact H|].
  exact (proj1 (proj2 (proj2 (proj2 (duplicate_ids_all_matches twins 5 H))))
           2%nat {| id := 5; todo := "bread"; done := true |} eq_refl eq_refl).
Defined.

Example twins_deleted :
  todoReducer twins (Delete 5) = [ {| id := 8; todo := "eggs"; done := false |} ].
Proof. reflexivity. Qed.

Example unknown_action state ty : todoReducer state (Unknown ty) = state.
Proof. reflexivity. Qed.

Example derived_counts :
  todosCount twins = 3%nat /\ pendingTodosCount twins = 2%nat /\
  completedTodosCount twins = 1%nat.
Proof. repeat split. Qed.

End TodoProps.

(** * Properties of useForm *)

Module FormProps.
Import JS Form Samples.

Lemma form_step_change form cell t :
  step form cell (InputChange t) = <[name t := JStr (value t)]> cell.
Proof. reflexivity. Qed.

Lemma form_step_reset form cell : step form cell ResetForm = form.
Proof. reflexivity. Qed.

Lemma keys_from form ops : forall (cell : gmap string json) (acc : gset string),
  dom cell = dom form ∪ acc ->
  dom (fold_left (step form) ops cell) = dom form ∪ touched ops acc.
Proof.
  induction ops as [|o ops IH]; intros cell acc H; cbn; [exact H|].
  destruct o as [t|].
  - apply IH. rewrite form_step_change, dom_insert_L, H. set_solver.
  - apply IH. rewrite form_step_reset. set_solver.
Qed.

Lemma touched_within form ops : forall acc,
  Forall (names_within form) ops -> acc ⊆ dom form -> touched ops acc ⊆ dom form.
Proof.
  induction ops as [|o ops IH]; intros acc H Hacc; cbn; [exact Hacc|].
  inversion H as [|? ? Ho Hops]; subst. destruct o as [t|]; cbn in Ho.
  - apply IH; [exact Hops|]. set_solver.
  - apply IH; [exact Hops|]. set_solver.
Qed.

(** C3, as the code has it. The keys of the form state are the keys
    of the initial record together with the names carried by the
    input changes since the last reset; they are the keys of the
    initial record whenever every input change names one of them. *)
Theorem form_keys (form : gmap string json) (ops : list op) :
  dom (run form ops) = dom form ∪ touched ops ∅ /\
  (Forall (names_within form) ops -> dom (run form ops) = dom form).
Proof.
  assert (H : dom (run form ops) = dom form ∪ touched ops ∅).
  { unfold run. apply keys_from. unfold mount. cbn. set_solver. }
  split; [exact H|].
  intros Hin. rewrite H.
  pose proof (touched_within form ops ∅ Hin) as Hsub. set_solver.
Qed.

Lemma form_keys_witness :
  dom (run login [InputChange {| name := "email"; value := "a@b.com" |}; ResetForm])
  = dom login.
Proof.
  apply (proj2 (form_keys login _)).
  constructor; [|constructor; [exact I|constructor]].
  cbn. unfold login. rewrite dom_insert_L. apply elem_of_union_l, elem_of_singleton_2.
  reflexivity.
Defined.

(** C3 as stated fails: an input change whose name is not a key of
    the initial record adds that key. *)
Lemma form_keys_counterexample :
  dom (run login [InputChange {| name := "nickname"; value := "x" |}]) <> dom login.
Proof.
  intros H.
  assert (Hin : "nickname" ∈ dom (run login [InputChange {| name := "nickname"; value := "x" |}])).
  { unfold run. cbn [fold_left]. rewrite form_step_change, dom_insert_L. set_solver. }
  rewrite H in Hin. unfold login in Hin. rewrite !dom_insert_L, dom_empty_L in Hin.
  set_solver.
Qed.

Example form_change_then_reset :
  run login [InputChange {| name := "email"; value := "a@b.com" |}]
  = <["email" := JStr "a@b.com"]> login /\
  run login [InputChange {| name := "email"; value := "a@b.com" |}; ResetForm] = login.
Proof. split; reflexivity. Qed.

End FormProps.

(** * Properties of useFetchRickAndMorty *)

Module QueryProps.
Import JS Query Samples.

(** C7. A parameter left out takes its default: staleTime 300000,
    gcTime 1800000, retry 3, retryDelay 1000, queryKey [[url]]; the
    query is enabled exactly when the url is not empty, and it never
    refetches on window focus. *)
Theorem query_defaults (c : QueryConfig) :
  (staleTime c = None -> o_staleTime (options c) = 300000) /\
  (gcTime c = None -> o_gcTime (options c) = 1800000) /\
  (retry c = None -> o_retry (options c) = inl 3) /\
  (retryDelay c = None -> o_retryDelay (options c) = 1000) /\
  (queryKey c = None -> o_queryKey (options c) = [JStr (url c)]) /\
  (o_enabled (options c) = false <-> url c = EmptyString) /\
  o_refetchOnWindowFocus (options c) = false.
Proof.
  unfold options; cbn. repeat split; try (intros ->; reflexivity).
  destruct (url c); cbn; [reflexivity | discriminate].
Qed.

Lemma query_defaults_witness :
  o_staleTime (options (only_url "/api")) = 300000 /\
  o_enabled (options (only_url EmptyString)) = false.
Proof.
  split.
  - exact (proj1 (query_defaults (only_url "/api")) eq_refl).
  - exact (proj2 (proj1 (proj2 (proj2 (proj2 (proj2 (proj2
             (query_defaults (only_url EmptyString)))))))) eq_refl).
Defined.

Example query_options_given :
  let o := options {| url := "/api"; queryKey := Some [JStr "characters"];
                      staleTime := Some 5; gcTime := Some 6;
                      retry := Some (inr false); retryDelay := Some 7 |} in
  o_queryKey o = [JStr "characters"] /\ o_staleTime o = 5 /\ o_gcTime o = 6 /\
  o_retry o = inr false /\ o_retryDelay o = 7 /\ o_enabled o = true.
Proof. repeat split. Qed.

End QueryProps.

(** * Properties of useFetch *)

Module FetchProps.
Import JS Http Fetch Samples.

(** ** What one call of [fetchData] does *)

Lemma fetchData_start_eq isMounted url h :
  fetchData_start isMounted url h =
  match __localCache h !! url with
  | Some v =>
      if truthy v then (Normal true, with_cell (succeeded v) h)
      else (Normal false, with_cell loading_state h)
  | None => (Normal false, with_cell loading_state h)
  end.
Proof.
  unfold fetchData_start, try_catch, fetchData_try_start, bind, setLoadinState,
    cache_get, setState; cbn.
  destruct (__localCache h !! url) as [v|]; [|reflexivity].
  destruct (truthy v); reflexivity.
Qed.

Lemma fetchData_resume_eq isMounted url s h :
  fetchData_resume isMounted url s h =
  match s with
  | Rejected e => fail_with isMounted e h
  | Fulfilled resp =>
      if ok resp then
        match body resp with
        | BodyJson v =>
            (Normal tt,
             {| cell := if isMounted then succeeded v else cell h;
                __localCache := <[url := v]> (__localCache h) |})
        | BodyError e => fail_with isMounted e h
        end
      else fail_with isMounted
             (ErrorObject ("HTTP error! status: " +:+ decimal (status resp))) h
  end.
Proof.
  unfold fetchData_resume, try_catch, fetchData_try_rest, bind, await_fetch,
    await_json, fail_with, fetchData_catch, when, bind, setState, cache_set,
    throw, ret, with_cell.
  destruct s as [e|resp]; cbn.
  - destruct isMounted, h; reflexivity.
  - destruct (ok resp); cbn.
    + destruct (body resp) as [v|e]; cbn; destruct isMounted, h; reflexivity.
    + destruct isMounted, h; reflexivity.
Qed.

Lemma fetchData_start_returns isMounted url h :
  exists b h', fetchData_start isMounted url h = (Normal b, h').
Proof.
  rewrite fetchData_start_eq.
  destruct (__localCache h !! url) as [v|]; [destruct (truthy v)|]; eauto.
Qed.

Lemma fetchData_resume_returns isMounted url s h :
  exists h', fetchData_resume isMounted url s h = (Normal tt, h').
Proof.
  rewrite fetchData_resume_eq. unfold fail_with.
  destruct s as [e|resp]; [eauto|].
  destruct (ok resp); [destruct (body resp)|]; eauto.
Qed.

(** ** Invariants of the reachable worlds *)

Lemma tidy_start isMounted url h :
  tidy (cell (fetchData_start isMounted url h).2).
Proof.
  rewrite fetchData_start_eq.
  destruct (__localCache h !! url) as [v|]; [destruct (truthy v)|];
    cbn; unfold tidy; cbn; congruence.
Qed.

Lemma tidy_resume isMounted url s h :
  tidy (cell h) -> tidy (cell (fetchData_resume isMounted url s h).2).
Proof.
  intros H. rewrite fetchData_resume_eq. unfold fail_with.
  destruct s as [e|resp]; [|destruct (ok resp); [destruct (body resp)|]];
    destruct isMounted; cbn; try exact H; unfold tidy; cbn; congruence.
Qed.

Lemma sound_cleanup inst w : sound w -> sound (useFetch_cleanup inst w).
Proof. intros [H1 H2]. split; assumption. Qed.

Lemma vars_fresh (vs : list bool) : default true ((vs ++ [true]) !! length vs) = true.
Proof. now rewrite lookup_app_r, Nat.sub_diag by lia. Qed.

Lemma sound_effect i s url w : sound w -> sound (useFetch_effect i s url w).
Proof.
  intros [H1 H2]. unfold useFetch_effect. rewrite vars_fresh.
  pose proof (tidy_start true url {| cell := s; __localCache := cache w |}) as Ht.
  destruct (fetchData_start true url _) as [r h]; cbn in Ht.
  split; cbn.
  - destruct (decide (i = length (instances w))).
    + apply Forall_app; split; [exact H1|]. repeat constructor. exact Ht.
    + apply Forall_insert; [exact H1|exact Ht].
  - destruct r as [[|]|]; try exact H2.
    apply Forall_app; split; [exact H2|]. repeat constructor.
Qed.

Lemma sound_step w e : sound w -> sound (step w e).
Proof.
  intros Hw. destruct e as [url|i url|i|k s]; cbn.
  - now apply sound_effect.
  - destruct (instances w !! i) as [inst|]; [|exact Hw].
    destruct (alive inst && negb (url =? url_arg inst)%string); [|exact Hw].
    now apply sound_effect, sound_cleanup.
  - destruct (instances w !! i) as [inst|] eqn:Hi; [|exact Hw].
    destruct (alive inst); [|exact Hw].
    destruct Hw as [H1 H2]. split; cbn; [|exact H2].
    apply Forall_insert; [exact H1|]. cbn.
    exact (proj1 (Forall_lookup _ _) H1 _ _ Hi).
  - destruct (pending w !! k) as [r|]; [|exact Hw].
    destruct (instances w !! owner r) as [inst|] eqn:Hi; [|exact Hw].
    destruct Hw as [H1 H2].
    pose proof (proj1 (Forall_lookup _ _) H1 _ _ Hi) as Hinst.
    pose proof (tidy_resume (req_isMounted r) (req_url r) s
                  {| cell := st inst; __localCache := cache w |} Hinst) as Ht.
    destruct (fetchData_resume _ _ _ _) as [o h]; cbn in Ht.
    split; cbn.
    + apply Forall_insert; [exact H1|]. cbn. destruct (alive inst); assumption.
    + now apply Forall_delete.
Qed.

Lemma sound_from w evs : sound w -> sound (fold_left step evs w).
Proof.
  revert w. induction evs as [|e evs IH]; intros w Hw; cbn; [exact Hw|].
  now apply IH, sound_step.
Qed.

Lemma sound_run evs : sound (run evs).
Proof. apply sound_from. split; constructor. Qed.

(** The value [fetchData] holds as [isMounted] is the one the variable
    had at the call: no cleanup changes it. *)
Lemma isMounted_is_true evs k r :
  pending (run evs) !! k = Some r -> req_isMounted r = true.
Proof.
  intros H. exact (proj1 (Forall_lookup _ _) (sound_flags _ (sound_run evs)) _ _ H).
Qed.

(** The state of a mounted owner once its request has settled. *)
Lemma settle_owner w k r inst s :
  pending w !! k = Some r ->
  instances w !! owner r = Some inst ->
  alive inst = true ->
  state_of (step w (Settle k s)) (owner r)
  = Some (cell (fetchData_resume (req_isMounted r) (req_url r) s
                  {| cell := st inst; __localCache := cache w |}).2).
Proof.
  intros Hk Hi Ha. unfold state_of; cbn. rewrite Hk, Hi.
  destruct (fetchData_resume _ _ _ _) as [o h]; cbn.
  rewrite list_lookup_insert_eq by (eapply lookup_lt_Some; eassumption).
  cbn. now rewrite Ha.
Qed.

(** A successful response goes into the cache, whoever still waits. *)
Lemma settle_caches w k r inst resp v :
  pending w !! k = Some r ->
  instances w !! owner r = Some inst ->
  ok resp = true -> body resp = BodyJson v ->
  cache (step w (Settle k (Fulfilled resp))) !! req_url r = Some v.
Proof.
  intros Hk Hi Hok Hb. cbn. rewrite Hk, Hi, fetchData_resume_eq, Hok, Hb. cbn.
  apply lookup_insert_eq.
Qed.

(** After the unmount React drops the update. *)
Lemma settle_after_unmount w k r inst s :
  pending w !! k = Some r ->
  instances w !! owner r = Some inst ->
  alive inst = false ->
  state_of (step w (Settle k s)) (owner r) = Some (st inst).
Proof.
  intros Hk Hi Ha. unfold state_of; cbn. rewrite Hk, Hi.
  destruct (fetchData_resume _ _ _ _) as [o h]; cbn.
  rewrite list_lookup_insert_eq by (eapply lookup_lt_Some; eassumption).
  cbn. now rewrite Ha.
Qed.

(** A successful response reaches the state of a mounted owner,
    whatever url the owner is rendering with by then. *)
Lemma late_response_applied evs k r inst resp v :
  pending (run evs) !! k = Some r ->
  instances (run evs) !! owner r = Some inst ->
  alive inst = true ->
  ok resp = true -> body resp = BodyJson v ->
  state_of (step (run evs) (Settle k (Fulfilled resp))) (owner r) = Some (succeeded v).
Proof.
  intros Hk Hi Ha Hok Hb.
  rewrite (settle_owner _ _ _ _ _ Hk Hi Ha), (isMounted_is_true _ _ _ Hk).
  now rewrite fetchData_resume_eq, Hok, Hb.
Qed.

(** A truthy cache entry is served without a request. *)
Lemma cache_hit w url v :
  cache w !! url = Some v -> truthy v = true ->
  let w' := step w (Mount url) in
  state_of w' (length (instances w)) = Some (succeeded v) /\
  network w' = network w /\ pending w' = pending w /\ cache w' = cache w.
Proof.
  intros Hc Hv. cbn. unfold useFetch_effect, state_of. rewrite vars_fresh, fetchData_start_eq.
  cbn. rewrite Hc, Hv. cbn.
  destruct (decide (length (instances w) = length (instances w))); [|congruence].
  rewrite lookup_app_r, Nat.sub_diag by lia. repeat split.
Qed.

(** C1. The response to a superseded request is applied. Instance 0
    asks for [/a], then renders with [/b]: the cleanup has cleared the
    first effect's [isMounted] and the state is the loading state of
    [/b]; when [/a] then answers, its data becomes the state of the
    instance, and the shared cache receives it. *)
Theorem stale_response_is_applied :
  let before := run [Mount "/a"; Rerender 0 "/b"] in
  let after := step before (Settle 0 (ok200 (int 1))) in
  vars before !! 0%nat = Some false /\
  pending before !! 0%nat = Some {| owner := 0; req_url := "/a"; req_isMounted := true |} /\
  (url_arg <$> instances before !! 0%nat) = Some "/b" /\
  state_of before 0 = Some loading_state /\
  state_of after 0 = Some (succeeded (int 1)) /\
  (url_arg <$> instances after !! 0%nat) = Some "/b" /\
  cache after !! "/a" = Some (int 1).
Proof. vm_compute. repeat split. Qed.

(** C4. A cached value that is falsy is not served. [/count] answers
    [0], which goes into the cache; a second component asking for
    [/count] stays in the loading state and a second request is sent. *)
Theorem falsy_cache_entry_is_refetched :
  let before := run [Mount "/count"; Settle 0 (ok200 (int 0))] in
  let after := step before (Mount "/count") in
  cache before !! "/count" = Some (int 0) /\
  network before = ["/count"] /\
  state_of after 1 = Some loading_state /\
  network after = ["/count"; "/count"] /\
  pending after = [{| owner := 1; req_url := "/count"; req_isMounted := true |}].
Proof. vm_compute. repeat split. Qed.

(** With both requests in flight, the answer that comes last wins. *)
Example out_of_order_responses :
  let w := run [Mount "/a"; Rerender 0 "/b";
                Settle 1 (ok200 (int 2)); Settle 0 (ok200 (int 1))] in
  (url_arg <$> instances w !! 0%nat) = Some "/b" /\
  state_of w 0 = Some (succeeded (int 1)) /\ pending w = [].
Proof. vm_compute. repeat split. Qed.

Example truthy_cache_entry_is_served :
  let before := run [Mount "/count"; Settle 0 (ok200 (int 7))] in
  let after := step before (Mount "/count") in
  state_of after 1 = Some (succeeded (int 7)) /\ network after = ["/count"].
Proof. vm_compute. repeat split. Qed.

(** C5. When a request fails and its owner is still mounted, the
    owner's state becomes [hasError = true] with no data and the
    failure's message as [error]: the message of the rejection or of
    the body's parse error, [HTTP error! status: <code>] for a status
    outside 200-299 (so [... 404] for a 404), and [An error occurred]
    for a thrown value that is not an [Error]. [fetchData] itself
    always completes normally. *)
Theorem failure_becomes_error_state (evs : list event) (k : nat) (r : request)
    (inst : instance) :
  pending (run evs) !! k = Some r ->
  instances (run evs) !! owner r = Some inst ->
  alive inst = true ->
  let after s := state_of (step (run evs) (Settle k s)) (owner r) in
  (forall message, after (Rejected (ErrorObject message)) = Some (failed message)) /\
  (forall v, after (Rejected (NonError v)) = Some (failed "An error occurred")) /\
  (forall resp, ok resp = false ->
     after (Fulfilled resp)
     = Some (failed ("HTTP error! status: " +:+ decimal (status resp)))) /\
  (forall b, after (Fulfilled {| status := 404; body := b |})
     = Some (failed ("HTTP error! status: " +:+ "404"))) /\
  (forall resp message, ok resp = true -> body resp = BodyError (ErrorObject message) ->
     after (Fulfilled resp) = Some (failed message)) /\
  (forall resp v, ok resp = true -> body resp = BodyError (NonError v) ->
     after (Fulfilled resp) = Some (failed "An error occurred")) /\
  (forall isMounted url s h, exists h',
     fetchData_resume isMounted url s h = (Normal tt, h')) /\
  (forall isMounted url h, exists b h',
     fetchData_start isMounted url h = (Normal b, h')).
Proof.
  intros Hk Hi Ha after.
  assert (Hafter : forall s, after s =
            Some (cell (fetchData_resume true (req_url r) s
                          {| cell := st inst; __localCache := cache (run evs) |}).2)).
  { intros s. unfold after. rewrite (settle_owner _ _ _ _ s Hk Hi Ha).
    now rewrite (isMounted_is_true _ _ _ Hk). }
  repeat split.
  - intros message. now rewrite Hafter, fetchData_resume_eq.
  - intros v. now rewrite Hafter, fetchData_resume_eq.
  - intros resp Hok. now rewrite Hafter, fetchData_resume_eq, Hok.
  - intros b. now rewrite Hafter, fetchData_resume_eq.
  - intros resp message Hok Hb. now rewrite Hafter, fetchData_resume_eq, Hok, Hb.
  - intros resp v Hok Hb. now rewrite Hafter, fetchData_resume_eq, Hok, Hb.
  - intros. apply fetchData_resume_returns.
  - intros. apply fetchData_start_returns.
Qed.

Lemma failure_becomes_error_state_witness :
  state_of (step (run [Mount "/missing"])
              (Settle 0 (Fulfilled {| status := 404; body := BodyJson JNull |}))) 0
  = Some (failed "HTTP error! status: 404").
Proof.
  exact (proj1 (proj2 (proj2 (proj2
    (failure_becomes_error_state [Mount "/missing"] 0
       {| owner := 0; req_url := "/missing"; req_isMounted := true |}
       {| st := loading_state; url_arg := "/missing"; alive := true; cleanup := 0 |}
       eq_refl eq_refl eq_refl)))) (BodyJson JNull)).
Defined.



End FetchProps.

(** * Properties of the first render of useTodo *)

Module TodoHookProps.
Import JS TodoHook Samples.

Lemma or_else_absent b : or_else None b = b.
Proof. reflexivity. Qed.

Lemma or_else_empty b : or_else (Some EmptyString) b = b.
Proof. reflexivity. Qed.

Lemma or_else_text s b : s <> EmptyString -> or_else (Some s) b = s.
Proof. intros H. destruct s; [congruence|reflexivity]. Qed.

Lemma parse_empty_array : JSONText.parse "[]" = Some (JArr []).
Proof. reflexivity. Qed.

Lemma done_of_readable v : readable v -> exists d, done_of v = Normal d.
Proof. intros H. destruct v; cbn; eauto. now elim H. Qed.

(** Over readable elements both filters return, and between them
    they count every element once. *)
Lemma filters_return elems :
  Forall readable elems ->
  exists p c,
    filter_length (fun todo => and_then (done_of todo) (fun d => Normal (negb d))) elems
    = Normal p /\
    filter_length done_of elems = Normal c /\
    (p + c = length elems)%nat.
Proof.
  induction 1 as [|v elems Hv _ (p & c & Hp & Hc & Hl)].
  - exists 0%nat, 0%nat. repeat split.
  - destruct (done_of_readable v Hv) as [d Hd]. cbn [filter_length].
    rewrite Hd, Hp, Hc. cbn.
    destruct d; cbn; eexists _, _; repeat split; cbn; lia.
Qed.

Lemma filter_null (f : bool -> bool) elems elems' :
  filter_length (fun todo => and_then (done_of todo) (fun d => Normal (f d)))
    (elems ++ JNull :: elems')
  = Throw TypeError.
Proof.
  induction elems as [|v elems IH]; cbn [app filter_length]; [reflexivity|].
  rewrite IH. destruct v; reflexivity.
Qed.

Lemma first_render localStorage text :
  or_else (getItem localStorage "todos") "[]" = text ->
  useTodo_first localStorage
  = match JSONText.parse text with
    | Some (JArr elems) =>
        and_then (filter_length (fun todo => and_then (done_of todo)
                                   (fun d => Normal (negb d))) elems) (fun pending =>
        and_then (filter_length done_of elems) (fun completed =>
        Normal {| todos := JArr elems;
                  todosCount := length elems;
                  pendingTodosCount := pending;
                  completedTodosCount := completed |}))
    | Some _ => Throw TypeError
    | None => Throw SyntaxError
    end.
Proof.
  intros <-. unfold useTodo_first, useReducer_first, init, JSON_parse.
  destruct (JSONText.parse _) as [[]|]; reflexivity.
Qed.

(** C2, as the code has it. The list starts empty when the key
    [todos] is absent or holds the empty string. It starts as the
    parsed array when the stored text parses to an array with no
    [null] element, and the hook then returns it with its counts. Any
    other text makes a failure leave the hook: the [SyntaxError] of
    [JSON.parse] when the text is not JSON, a [TypeError] on the first
    render when it parses to a value that is no array or to an array
    with a [null] element. *)
Theorem initial_todos (localStorage : gmap string string) :
  (localStorage !! "todos" = None \/ localStorage !! "todos" = Some EmptyString ->
     useTodo_first localStorage
     = Normal {| todos := JArr []; todosCount := 0; pendingTodosCount := 0;
                 completedTodosCount := 0 |}) /\
  (forall text elems, localStorage !! "todos" = Some text -> text <> EmptyString ->
     JSONText.parse text = Some (JArr elems) -> Forall readable elems ->
     exists pending completed,
       useTodo_first localStorage
       = Normal {| todos := JArr elems; todosCount := length elems;
                   pendingTodosCount := pending; completedTodosCount := completed |} /\
       (pending + completed = length elems)%nat) /\
  (forall text, localStorage !! "todos" = Some text -> text <> EmptyString ->
     JSONText.parse text = None -> useTodo_first localStorage = Throw SyntaxError) /\
  (forall text v, localStorage !! "todos" = Some text -> text <> EmptyString ->
     JSONText.parse text = Some v -> (forall elems, v <> JArr elems) ->
     useTodo_first localStorage = Throw TypeError) /\
  (forall text elems elems', localStorage !! "todos" = Some text -> text <> EmptyString ->
     JSONText.parse text = Some (JArr (elems ++ JNull :: elems')) ->
     useTodo_first localStorage = Throw TypeError).
Proof.
  split; [|split; [|split; [|split]]].
  - intros [H|H]; rewrite (first_render localStorage "[]");
      try reflexivity; unfold getItem; now rewrite H.
  - intros text elems H Hne Hp Hr.
    rewrite (first_render localStorage text), Hp
      by (unfold getItem; rewrite H; now apply or_else_text).
    destruct (filters_return elems Hr) as (p & c & -> & -> & Hl).
    exists p, c. now split.
  - intros text H Hne Hp.
    rewrite (first_render localStorage text), Hp
      by (unfold getItem; rewrite H; now apply or_else_text).
    reflexivity.
  - intros text v H Hne Hp Hv.
    rewrite (first_render localStorage text), Hp
      by (unfold getItem; rewrite H; now apply or_else_text).
    destruct v; try reflexivity. now elim (Hv elems).
  - intros text elems elems' H Hne Hp.
    rewrite (first_render localStorage text), Hp
      by (unfold getItem; rewrite H; now apply or_else_text).
    now rewrite filter_null.
Qed.

Lemma initial_todos_witness :
  useTodo_first ∅
  = Normal {| todos := JArr []; todosCount := 0; pendingTodosCount := 0;
              completedTodosCount := 0 |} /\
  (exists r, useTodo_first {["todos" := stored]} = Normal r /\
             as_todos (todos r) = Some [milk] /\ todosCount r = 1%nat) /\
  useTodo_first {["todos" := "{oops"]} = Throw SyntaxError /\
  useTodo_first {["todos" := "null"]} = Throw TypeError /\
  useTodo_first {["todos" := "[1,null]"]} = Throw TypeError.
Proof.
  split; [|split; [|split; [|split]]].
  - exact (proj1 (initial_todos ∅) (or_introl eq_refl)).
  - assert (Hs : ({["todos" := stored]} : gmap string string) !! "todos" = Some stored)
      by reflexivity.
    assert (Hp : JSONText.parse stored
                 = Some (JArr [JObj [("id", int 1700000000000); ("todo", JStr "buy milk");
                                     ("done", JBool false)]])) by reflexivity.
    assert (Hne : stored <> EmptyString) by discriminate.
    assert (Hr : Forall readable
                   [JObj [("id", int 1700000000000); ("todo", JStr "buy milk");
                          ("done", JBool false)]])
      by (repeat constructor; discriminate).
    destruct (proj1 (proj2 (initial_todos {["todos" := stored]})) _ _ Hs Hne Hp Hr)
      as (p & c & H & Hl).
    eexists. split; [exact H|]. split; reflexivity.
  - refine (proj1 (proj2 (proj2 (initial_todos {["todos" := "{oops"]})))
              "{oops" eq_refl _ eq_refl). discriminate.
  - refine (proj1 (proj2 (proj2 (proj2 (initial_todos {["todos" := "null"]}))))
              "null" JNull eq_refl _ eq_refl _); discriminate.
  - refine (proj2 (proj2 (proj2 (proj2 (initial_todos {["todos" := "[1,null]"]}))))
              "[1,null]" [int 1] [] eq_refl _ eq_refl). discriminate.
Defined.

(** C2 as stated fails. Stored text that is not JSON does not give
    the empty list: [init] raises. Nor is stored text that parses
    always a starting list: [null], and an array holding [null], make
    the first render raise. *)
Lemma initial_todos_counterexample :
  JSONText.parse "{oops" = None /\
  useTodo_first {["todos" := "{oops"]} = Throw SyntaxError /\
  JSONText.parse "null" = Some JNull /\
  useTodo_first {["todos" := "null"]} = Throw TypeError /\
  JSONText.parse "[null]" = Some (JArr [JNull]) /\
  useTodo_first {["todos" := "[null]"]} = Throw TypeError.
Proof. repeat split. Qed.

Example first_render_of_other_elements :
  useTodo_first {["todos" := "[1,true,[]]"]}
  = Normal {| todos := JArr [int 1; JBool true; JArr []]; todosCount := 3;
              pendingTodosCount := 3; completedTodosCount := 0 |}.
Proof. reflexivity. Qed.

Example parse_accepts :
  JSONText.parse " [1, -2.50e-3, true, null] "
  = Some (JArr [int 1; JNum (Num (-250) (-5)); JBool true; JNull]) /\
  JSONText.parse ("{" +:+ quoted "a\u0041\n" +:+ ":{}}")
  = Some (JObj [(String "a" (String "A" (String "010" EmptyString)), JObj [])]).
Proof. split; reflexivity. Qed.

Example toggle_from_the_hook :
  let added := Todo.todoReducer Todo.initialState (onNewTodo 1700000000000 "buy milk") in
  let once := Todo.todoReducer added (onToggleTodo 1700000000000) in
  let twice := Todo.todoReducer once (onToggleTodo 1700000000000) in
  added = [milk] /\ List.map Todo.done once = [true] /\ twice = [milk] /\
  Todo.todoReducer twice (onDeleteTodo 1700000000000) = [].
Proof. repeat split. Qed.

Example parse_rejects :
  JSONText.parse EmptyString = None /\ JSONText.parse "[1,]" = None /\
  JSONText.parse "01" = None /\ JSONText.parse "1 2" = None /\
  JSONText.parse "undefined" = None /\ JSONText.parse "{a:1}" = None.
Proof. repeat split. Qed.

End TodoHookProps.

(** * Further properties of todoReducer and of the counts of useTodo *)

Module TodoExtra.
Import Todo TodoIds.

Lemma toggle_ids state i : ids (todoReducer state (Toggle i)) = ids state.
Proof.
  unfold ids; cbn. rewrite List.map_map. apply List.map_ext.
  intros t. unfold toggle_one. now destruct (id t =? i).
Qed.

Lemma toggle_absent state i : ~ has_id i state -> todoReducer state (Toggle i) = state.
Proof.
  intros H. cbn. rewrite <- (List.map_id state) at 2.
  apply List.map_ext_in. intros t Ht. unfold toggle_one.
  destruct (Z.eqb_spec (id t) i) as [E|E]; [|reflexivity].
  exfalso. apply H. unfold has_id, ids. rewrite <- E. now apply List.in_map.
Qed.

Lemma delete_ids state i :
  ids (todoReducer state (Delete i)) = List.filter (fun j => negb (j =? i)) (ids state).
Proof.
  unfold ids; cbn. induction state as [|t state IH]; cbn; [reflexivity|].
  destruct (id t =? i); cbn; now rewrite IH.
Qed.

Lemma delete_absent state i : ~ has_id i state -> todoReducer state (Delete i) = state.
Proof.
  unfold has_id, ids. cbn. induction state as [|t state IH]; cbn; intros H; [reflexivity|].
  destruct (Z.eqb_spec (id t) i) as [E|E]; cbn.
  - exfalso. apply H. now left.
  - f_equal. apply IH. intros Hin. apply H. now right.
Qed.

Lemma delete_removes state i : ~ has_id i (todoReducer state (Delete i)).
Proof.
  unfold has_id. rewrite delete_ids, filter_In, Z.eqb_refl. cbn. intros [_ H]. discriminate.
Qed.

Lemma counts_cons t todos :
  pendingTodosCount (t :: todos)
  = ((if done t then 0 else 1) + pendingTodosCount todos)%nat /\
  completedTodosCount (t :: todos)
  = ((if done t then 1 else 0) + completedTodosCount todos)%nat.
Proof. unfold pendingTodosCount, completedTodosCount. cbn. now destruct (done t). Qed.

(** X3. The two derived counts partition the list: every todo is
    counted as pending or as completed, never both. A toggle keeps
    the total, and a new todo adds one pending todo and no completed
    one. *)
Theorem counts_partition (todos : list Todo) :
  todosCount todos = (pendingTodosCount todos + completedTodosCount todos)%nat /\
  (forall i, todosCount (todoReducer todos (Toggle i)) = todosCount todos) /\
  (forall now text,
     let todos' := todoReducer todos (TodoHook.onNewTodo now text) in
     pendingTodosCount todos' = S (pendingTodosCount todos) /\
     completedTodosCount todos' = completedTodosCount todos).
Proof.
  split; [|split].
  - unfold todosCount. induction todos as [|t todos IH]; [reflexivity|].
    destruct (counts_cons t todos) as [-> ->]. cbn [length]. rewrite IH.
    destruct (done t); lia.
  - intros i. unfold todosCount. cbn. apply List.length_map.
  - intros now text. cbn. unfold pendingTodosCount, completedTodosCount.
    rewrite !List.filter_app, !List.length_app. cbn. lia.
Qed.

(** X4. A toggle changes nothing but [done] flags: the list keeps its
    length, and the ids and the texts stay where they are. *)
Theorem toggle_keeps_ids_and_texts (state : list Todo) (i : Z) :
  List.map id (todoReducer state (Toggle i)) = List.map id state /\
  List.map todo (todoReducer state (Toggle i)) = List.map todo state /\
  length (todoReducer state (Toggle i)) = length state.
Proof.
  split; [|split].
  - apply toggle_ids.
  - cbn. rewrite List.map_map. apply List.map_ext.
    intros t. unfold toggle_one. now destruct (id t =? i).
  - cbn. apply List.length_map.
Qed.

(** X5. A delete with an id that no todo has leaves the list as it
    is; after a delete no todo has the id, so deleting again changes
    nothing. *)
Theorem delete_absent_and_twice (state : list Todo) (i : Z) :
  (~ has_id i state -> todoReducer state (Delete i) = state) /\
  ~ has_id i (todoReducer state (Delete i)) /\
  todoReducer (todoReducer state (Delete i)) (Delete i) = todoReducer state (Delete i).
Proof.
  split; [|split].
  - apply delete_absent.
  - apply delete_removes.
  - apply delete_absent, delete_removes.
Qed.

Lemma delete_absent_and_twice_witness :
  todoReducer Samples.twins (Delete 3) = Samples.twins.
Proof.
  apply (proj1 (delete_absent_and_twice Samples.twins 3)).
  unfold has_id. cbn. lia.
Defined.

(** X6. Adding a todo whose id is new and deleting that id gives
    back the list. *)
Theorem add_then_delete (state : list Todo) (t : Todo) :
  ~ has_id (id t) state ->
  todoReducer (todoReducer state (Add t)) (Delete (id t)) = state.
Proof.
  intros H. cbn. rewrite List.filter_app. cbn. rewrite Z.eqb_refl. cbn.
  rewrite app_nil_r. now apply (delete_absent state (id t)).
Qed.

Lemma add_then_delete_witness :
  todoReducer (todoReducer Samples.twins (Add Samples.milk)) (Delete 1700000000000)
  = Samples.twins.
Proof.
  apply (add_then_delete Samples.twins Samples.milk).
  unfold has_id. cbn. lia.
Defined.

(** X7. Unique ids: delete and toggle keep the ids distinct, and an
    add keeps them distinct exactly when the id of the new todo is
    not in the list yet. *)
Theorem unique_ids_kept (state : list Todo) :
  NoDup (ids state) ->
  (forall i, NoDup (ids (todoReducer state (Delete i)))) /\
  (forall i, NoDup (ids (todoReducer state (Toggle i)))) /\
  (forall t, NoDup (ids (todoReducer state (Add t))) <-> ~ has_id (id t) state).
Proof.
  intros H. split; [|split].
  - intros i. rewrite delete_ids. apply base.NoDup_ListNoDup.
    apply List.NoDup_filter. now apply base.NoDup_ListNoDup.
  - intros i. now rewrite toggle_ids.
  - intros t. unfold has_id, ids. cbn. rewrite List.map_app. cbn.
    rewrite NoDup_app. split.
    + intros (_ & Hd & _) Hin. apply (Hd (id t)).
      * now apply list_elem_of_In.
      * now left.
    + intros Hn. split; [exact H|]. split; [|apply NoDup_singleton].
      intros j Hj Hj'. apply list_elem_of_singleton in Hj'. subst j.
      apply Hn. now apply list_elem_of_In.
Qed.

Lemma unique_ids_kept_witness :
  NoDup (ids (todoReducer [Samples.milk] (Toggle 1700000000000))).
Proof.
  apply (proj1 (proj2 (unique_ids_kept [Samples.milk] (NoDup_singleton _)))).
Defined.

Lemma toggle_counts_step t state i :
  id t <> i ->
  todoReducer (t :: state) (Toggle i) = t :: todoReducer state (Toggle i).
Proof. intros H. cbn. unfold toggle_one at 1. now apply Z.eqb_neq in H as ->. Qed.

(** X8. When the ids are distinct, toggling the id of a todo of the
    list moves exactly one todo between the two counts: a pending one
    becomes completed, a completed one becomes pending. *)
Theorem toggle_moves_one (state : list Todo) (t : Todo) :
  NoDup (ids state) ->
  In t state ->
  let state' := todoReducer state (Toggle (id t)) in
  if done t
  then pendingTodosCount state' = S (pendingTodosCount state) /\
       completedTodosCount state = S (completedTodosCount state')
  else completedTodosCount state' = S (completedTodosCount state) /\
       pendingTodosCount state = S (pendingTodosCount state').
Proof.
  intros Hnd Hin. cbv zeta.
  induction state as [|t0 state IH]; [destruct Hin|].
  unfold ids in Hnd. cbn in Hnd. apply NoDup_cons in Hnd as [Hfresh Hnd].
  destruct Hin as [->|Hin].
  - assert (Hrest : todoReducer state (Toggle (id t)) = state).
    { apply toggle_absent. unfold has_id, ids. now rewrite <- list_elem_of_In. }
    change (todoReducer (t :: state) (Toggle (id t)))
      with (toggle_one (id t) t :: todoReducer state (Toggle (id t))).
    rewrite Hrest. unfold toggle_one. rewrite Z.eqb_refl.
    destruct (counts_cons t state) as [-> ->].
    destruct (counts_cons {| id := id t; todo := todo t; done := negb (done t) |} state)
      as [-> ->]. cbn [done].
    destruct (done t); cbn; lia.
  - assert (Hne : id t0 <> id t).
    { intros E. apply Hfresh. rewrite E. apply list_elem_of_In. now apply List.in_map. }
    rewrite (toggle_counts_step _ _ _ Hne).
    destruct (counts_cons t0 state) as [-> ->].
    destruct (counts_cons t0 (todoReducer state (Toggle (id t)))) as [-> ->].
    specialize (IH Hnd Hin). destruct (done t); destruct IH as [-> ->]; lia.
Qed.

Lemma toggle_moves_one_witness :
  completedTodosCount (todoReducer [Samples.milk] (Toggle 1700000000000)) = 1%nat.
Proof.
  exact (proj1 (toggle_moves_one [Samples.milk] Samples.milk
                  (NoDup_singleton _) (or_introl eq_refl))).
Defined.

(** X9. Actions on ids commute: two toggles, two deletes, and a
    delete with a toggle give the same list in either order. *)
Theorem id_actions_commute (state : list Todo) (i j : Z) :
  todoReducer (todoReducer state (Toggle i)) (Toggle j)
  = todoReducer (todoReducer state (Toggle j)) (Toggle i) /\
  todoReducer (todoReducer state (Delete i)) (Delete j)
  = todoReducer (todoReducer state (Delete j)) (Delete i) /\
  todoReducer (todoReducer state (Delete i)) (Toggle j)
  = todoReducer (todoReducer state (Toggle j)) (Delete i).
Proof.
  split; [|split]; cbn.
  - rewrite !List.map_map. apply List.map_ext. intros t. unfold toggle_one.
    destruct (id t =? i) eqn:Ei, (id t =? j) eqn:Ej; cbn; rewrite ?Ei, ?Ej; cbn;
      reflexivity.
  - induction state as [|t state IH]; cbn; [reflexivity|].
    destruct (id t =? i) eqn:Ei, (id t =? j) eqn:Ej; cbn; rewrite ?Ei, ?Ej; cbn;
      now rewrite ?IH.
  - induction state as [|t state IH]; cbn; [reflexivity|].
    unfold toggle_one at 2.
    destruct (id t =? i) eqn:Ei, (id t =? j) eqn:Ej; cbn; rewrite ?Ei; cbn;
      rewrite ?IH; reflexivity.
Qed.

End TodoExtra.

(** * Further properties of useForm *)

Module FormExtra.
Import JS Form.

Lemma form_run_snoc form ops o : run form (ops ++ [o]) = step form (run form ops) o.
Proof. unfold run. now rewrite fold_left_app. Qed.

Lemma untouched_from form ops : forall (cell : gmap string json) (acc : gset string),
  (forall k, k ∉ acc -> cell !! k = form !! k) ->
  forall k, k ∉ touched ops acc -> fold_left (step form) ops cell !! k = form !! k.
Proof.
  induction ops as [|o ops IH]; intros cell acc H k Hk; cbn in *; [now apply H|].
  destruct o as [t|].
  - apply (IH _ ({[name t]} ∪ acc)); [|exact Hk].
    intros k' Hk'. rewrite FormProps.form_step_change.
    rewrite lookup_insert_ne by set_solver. apply H. set_solver.
  - apply (IH _ ∅); [|exact Hk]. intros k' _. now rewrite FormProps.form_step_reset.
Qed.

(** X10. Fields are independent. An input change sets the field it
    names to the text typed and leaves every other field as it was,
    and a field that no input change has named since the last reset
    holds its initial value. *)
Theorem form_fields (form : gmap string json) (ops : list op) :
  (forall t, run form (ops ++ [InputChange t]) !! name t = Some (JStr (value t))) /\
  (forall t k, k <> name t ->
     run form (ops ++ [InputChange t]) !! k = run form ops !! k) /\
  (forall k, k ∉ touched ops ∅ -> run form ops !! k = form !! k).
Proof.
  split; [|split].
  - intros t. rewrite form_run_snoc, FormProps.form_step_change. apply lookup_insert_eq.
  - intros t k Hk. rewrite form_run_snoc, FormProps.form_step_change.
    now apply lookup_insert_ne.
  - intros k Hk. unfold run. apply (untouched_from form ops _ ∅); [|exact Hk].
    intros k' _. reflexivity.
Qed.

Lemma form_fields_witness :
  run Samples.login [InputChange {| name := "email"; value := "a@b.com" |}] !! "password"
  = Some (JStr EmptyString).
Proof.
  rewrite (proj2 (proj2 (form_fields Samples.login
             [InputChange {| name := "email"; value := "a@b.com" |}])) "password").
  - reflexivity.
  - cbn. rewrite elem_of_union, elem_of_singleton, elem_of_empty. intros [H|[]]. discriminate.
Defined.

End FormExtra.

(** * Further properties of useFetch *)

Module FetchExtra.
Import JS Http Fetch FetchShape.








(** ** The cache *)

Lemma cache_effect i s url w : cache (useFetch_effect i s url w) = cache w.
Proof.
  unfold useFetch_effect. rewrite FetchProps.fetchData_start_eq. cbn.
  destruct (cache w !! url) as [v|]; [destruct (truthy v)|]; reflexivity.
Qed.

Lemma cache_step w e :
  cache (step w e) = cache w \/
  exists k s r v, e = Settle k s /\ pending w !! k = Some r /\ carries s v /\
                  cache (step w e) = <[req_url r := v]> (cache w).
Proof.
  destruct e as [url|i url|i|k s]; cbn.
  - left. apply cache_effect.
  - left. destruct (instances w !! i) as [inst|]; [|reflexivity].
    destruct (alive inst && negb (url =? url_arg inst)%string); [|reflexivity].
    now rewrite cache_effect.
  - left. destruct (instances w !! i) as [inst|]; [|reflexivity].
    now destruct (alive inst).
  - destruct (pending w !! k) as [r|] eqn:Hk; [|now left].
    destruct (instances w !! owner r) as [inst|]; [|now left].
    rewrite FetchProps.fetchData_resume_eq. unfold fail_with.
    destruct s as [e|resp]; [left; now destruct (req_isMounted r)|].
    destruct (ok resp) eqn:Hok; [|left; now destruct (req_isMounted r)].
    destruct (body resp) as [v|e] eqn:Hb; [|left; now destruct (req_isMounted r)].
    right. exists k, (Fulfilled resp), r, v. repeat split; [exact Hk|].
    exists resp. repeat split; assumption.
Qed.

(** X12. The cache only grows: whatever events follow, a url that
    has an entry keeps one. *)
Theorem cache_never_evicts (w : world) (evs : list event) (url : string) :
  is_Some (cache w !! url) -> is_Some (cache (fold_left step evs w) !! url).
Proof.
  revert w. induction evs as [|e evs IH]; intros w H; cbn; [exact H|].
  apply IH. destruct (cache_step w e) as [->|(k & s & r & v & _ & _ & _ & ->)]; [exact H|].
  destruct (decide (req_url r = url)) as [->|Hne].
  - rewrite lookup_insert_eq. by eexists.
  - now rewrite lookup_insert_ne.
Qed.

Lemma cache_never_evicts_witness :
  is_Some (cache (run [Mount "/a"; Settle 0 (ok200 (int 1)); Mount "/b"; Unmount 0])
             !! "/a").
Proof.
  apply (cache_never_evicts (run [Mount "/a"; Settle 0 (ok200 (int 1))])
           [Mount "/b"; Unmount 0] "/a").
  by eexists.
Defined.

Lemma cache_origin_from evs url v : forall w,
  cache (fold_left step evs w) !! url = Some v ->
  cache w !! url = Some v \/ exists k s, In (Settle k s) evs /\ carries s v.
Proof.
  induction evs as [|e evs IH]; intros w H; cbn in *; [now left|].
  destruct (IH _ H) as [Hc|(k & s & Hin & Hs)].
  - destruct (cache_step w e) as [E|(k & s & r & v' & -> & _ & Hs & E)];
      rewrite E in Hc; [now left|].
    destruct (decide (req_url r = url)) as [Heq|Hne].
    + rewrite Heq, lookup_insert_eq in Hc. injection Hc as ->.
      right. exists k, s. split; [now left|exact Hs].
    + rewrite lookup_insert_ne in Hc by exact Hne. now left.
  - right. exists k, s. split; [now right|exact Hs].
Qed.

(** X13. Only data enters the cache: every cached value is the
    parsed body of a response with a status in 200-299 that one of
    the requests received. No failure is ever cached. *)
Theorem cache_holds_only_responses (evs : list event) (url : string) (v : json) :
  cache (run evs) !! url = Some v ->
  exists k s, In (Settle k s) evs /\ carries s v.
Proof.
  intros H. destruct (cache_origin_from evs url v world0 H) as [Hc|Hs]; [|exact Hs].
  cbn in Hc. now rewrite lookup_empty in Hc.
Qed.

Lemma cache_holds_only_responses_witness :
  exists k s, In (Settle k s) [Mount "/a"; Settle 0 (ok200 (int 1))] /\ carries s (int 1).
Proof.
  exact (cache_holds_only_responses [Mount "/a"; Settle 0 (ok200 (int 1))] "/a" (int 1)
           eq_refl).
Defined.

(** ** Requests *)

Lemma effect_not_served i s url w :
  served w url = false ->
  let w' := useFetch_effect i s url w in
  pending w' = pending w ++ [{| owner := i; req_url := url; req_isMounted := true |}] /\
  network w' = network w ++ [url] /\
  cache w' = cache w /\
  vars w' = vars w ++ [true] /\
  instances w' =
    (let inst := {| st := loading_state; url_arg := url; alive := true;
                    cleanup := length (vars w) |} in
     if decide (i = length (instances w)) then instances w ++ [inst]
     else <[i := inst]> (instances w)).
Proof.
  unfold served. intros H. apply orb_false_iff in H as [_ H].
  cbv zeta. unfold useFetch_effect.
  rewrite FetchProps.vars_fresh, FetchProps.fetchData_start_eq. cbn.
  destruct (cache w !! url) as [v|]; [rewrite H|]; cbn; repeat split.
Qed.

(** X14. Fetch, then reuse. When the cache does not serve [url]
    (the url is no name that every object inherits, and the cache
    holds no truthy value for it), a
    component that mounts with it sends one request; once the answer
    (a 2xx response whose body parses to a truthy value) has come,
    the component shows the data, and a component mounting with the
    same url afterwards shows the same data at once, with no further
    request. *)
Theorem fetch_then_reuse (w : world) (url : string) (resp : Response) (v : json) :
  served w url = false ->
  ok resp = true -> body resp = BodyJson v -> truthy v = true ->
  let first := length (instances w) in
  let w1 := step w (Mount url) in
  let w2 := step w1 (Settle (length (pending w)) (Fulfilled resp)) in
  let w3 := step w2 (Mount url) in
  state_of w1 first = Some loading_state /\
  state_of w2 first = Some (succeeded v) /\
  state_of w3 (S first) = Some (succeeded v) /\
  network w3 = network w ++ [url] /\
  pending w3 = pending w.
Proof.
  intros Hs Hok Hb Hv first. cbv zeta.
  change (step w (Mount url)) with (useFetch_effect first initial url w).
  destruct (effect_not_served first initial url w Hs) as (Hp & Hn & Hc & _ & Hi).
  cbv zeta in Hp, Hn, Hc, Hi.
  set (w1 := useFetch_effect first initial url w) in *.
  set (w2 := step w1 (Settle (length (pending w)) (Fulfilled resp))).
  set (w3 := step w2 (Mount url)).
  destruct (decide (first = length (instances w))) as [_|Hne]; [|now elim Hne].
  assert (Hk : pending w1 !! length (pending w)
               = Some {| owner := first; req_url := url; req_isMounted := true |}).
  { rewrite Hp, lookup_app_r, Nat.sub_diag by lia. reflexivity. }
  assert (Ho : instances w1 !! first
               = Some {| st := loading_state; url_arg := url; alive := true;
                         cleanup := length (vars w) |}).
  { rewrite Hi, lookup_app_r, Nat.sub_diag by (unfold first; lia). reflexivity. }
  assert (H1 : state_of w1 first = Some loading_state).
  { unfold state_of. now rewrite Ho. }
  assert (H2 : state_of w2 first = Some (succeeded v)).
  { unfold w2. rewrite (FetchProps.settle_owner w1 _ _ _ _ Hk Ho eq_refl). cbn.
    now rewrite FetchProps.fetchData_resume_eq, Hok, Hb. }
  assert (Hc2 : cache w2 !! url = Some v).
  { apply (FetchProps.settle_caches w1 _ _ _ resp v Hk Ho Hok Hb). }
  assert (Hl2 : length (instances w2) = S first).
  { unfold w2. cbn. rewrite Hk. cbn. rewrite Ho.
    destruct (fetchData_resume _ _ _ _). cbn.
    rewrite length_insert, Hi, length_app. cbn. unfold first. lia. }
  assert (Hn2 : network w2 = network w ++ [url] /\ pending w2 = pending w).
  { unfold w2. cbn. rewrite Hk. cbn. rewrite Ho.
    destruct (fetchData_resume _ _ _ _). cbn. split; [exact Hn|].
    rewrite Hp. rewrite delete_middle. apply app_nil_r. }
  destruct (FetchProps.cache_hit w2 url v Hc2 Hv) as (H3 & Hn3 & Hp3 & _).
  fold w3 in H3, Hn3, Hp3. rewrite Hl2 in H3.
  repeat split; try assumption.
  - rewrite Hn3. apply Hn2.
  - rewrite Hp3. apply Hn2.
Qed.

Lemma fetch_then_reuse_witness :
  state_of (run [Mount "/a"; Settle 0 (ok200 (int 1)); Mount "/a"]) 1
  = Some (succeeded (int 1)).
Proof.
  exact (proj1 (proj2 (proj2
    (fetch_then_reuse world0 "/a" {| status := 200; body := BodyJson (int 1) |} (int 1)
       eq_refl eq_refl eq_refl eq_refl)))).
Defined.

Lemma traffic_effect i s url w :
  let w' := useFetch_effect i s url w in
  (length (network w') <= S (length (network w)))%nat /\
  (length (network w') - length (pending w') = length (network w) - length (pending w))%nat /\
  (length (pending w') <= length (network w') <-> length (pending w) <= length (network w))%nat.
Proof.
  cbv zeta. unfold useFetch_effect.
  destruct (fetchData_start _ _ _) as [[[|]|] h]; cbn; rewrite ?length_app; cbn; lia.
Qed.

Lemma traffic_step w e :
  (length (pending w) <= length (network w))%nat ->
  (length (pending (step w e)) <= length (network (step w e)))%nat /\
  (length (network (step w e))
   <= length (network w) + (if renders e then 1 else 0))%nat.
Proof.
  intros H. destruct e as [url|i url|i|k s]; cbn.
  - pose proof (traffic_effect (length (instances w)) initial url w). cbv zeta in *. lia.
  - destruct (instances w !! i) as [inst|]; [|lia].
    destruct (alive inst && negb (url =? url_arg inst)%string); [|lia].
    pose proof (traffic_effect i (st inst) url (useFetch_cleanup inst w)).
    cbv zeta in *. cbn in *. lia.
  - destruct (instances w !! i) as [inst|]; [|lia].
    destruct (alive inst); cbn; lia.
  - destruct (pending w !! k) as [r|] eqn:Hk; [|lia].
    destruct (instances w !! owner r) as [inst|]; [|lia].
    destruct (fetchData_resume _ _ _ _); cbn.
    rewrite length_delete by (rewrite Hk; by eexists). lia.
Qed.

Lemma traffic_from evs : forall w,
  (length (pending w) <= length (network w))%nat ->
  let w' := fold_left step evs w in
  (length (pending w') <= length (network w'))%nat /\
  (length (network w') <= length (network w) + length (List.filter renders evs))%nat.
Proof.
  induction evs as [|e evs IH]; intros w H; cbn; [lia|].
  destruct (traffic_step w e H) as [H1 H2].
  destruct (IH _ H1) as [H3 H4]. cbv zeta in *.
  destruct (renders e); cbn [length]; lia.
Qed.

Lemma network_effect i s url w :
  network (useFetch_effect i s url w) = network w \/
  network (useFetch_effect i s url w) = network w ++ [url].
Proof.
  unfold useFetch_effect.
  destruct (fetchData_start _ _ _) as [[[|]|] h]; cbn; auto.
Qed.

(** X15. The hook sends a request only when a component mounts or
    renders, and then at most one, for the url of that mount or
    render; an unmount or an arriving answer sends none. So the
    requests sent are never more than the mounts and renders, and the
    requests still in flight never more than the requests sent. *)
Theorem requests_only_on_render :
  (forall w e, renders e = false -> network (step w e) = network w) /\
  (forall w url,
     network (step w (Mount url)) = network w \/
     network (step w (Mount url)) = network w ++ [url]) /\
  (forall w i url,
     network (step w (Rerender i url)) = network w \/
     network (step w (Rerender i url)) = network w ++ [url]) /\
  (forall evs, length (network (run evs)) <= length (List.filter renders evs))%nat /\
  (forall evs, length (pending (run evs)) <= length (network (run evs)))%nat.
Proof.
  split; [|split; [|split; [|split]]].
  - intros w [url|i url|i|k s] H; try discriminate H; cbn.
    + destruct (instances w !! i) as [inst|]; [|reflexivity].
      now destruct (alive inst).
    + destruct (pending w !! k) as [r|]; [|reflexivity].
      destruct (instances w !! owner r) as [inst|]; [|reflexivity].
      now destruct (fetchData_resume _ _ _ _).
  - intros w url. apply network_effect.
  - intros w i url. cbn.
    destruct (instances w !! i) as [inst|]; [|now left].
    destruct (alive inst && negb (url =? url_arg inst)%string); [|now left].
    apply (network_effect i (st inst) url (useFetch_cleanup inst w)).
  - intros evs. destruct (traffic_from evs world0) as [H1 H2]; [cbn; lia|].
    cbv zeta in *. cbn in H2. unfold run. lia.
  - intros evs. destruct (traffic_from evs world0) as [H1 H2]; [cbn; lia|].
    cbv zeta in *. unfold run. lia.
Qed.

Lemma requests_only_on_render_witness :
  network (step (run [Mount "/a"]) (Unmount 0)) = network (run [Mount "/a"]).
Proof. exact (proj1 requests_only_on_render (run [Mount "/a"]) (Unmount 0) eq_refl). Defined.

End FetchExtra.

(** * Further properties of useFetchRickAndMorty *)

Module QueryExtra.
Import JS Http Query FetchShape.

(** X16. [queryFn] resolves exactly when the response has a status
    in 200-299 and its body parses, and then with the parsed body.
    Otherwise it rejects with an [Error] whose message is the one of
    the failure, [HTTP error! status: <code>] for a bad status, and
    [Failed to fetch data] for a thrown value that is not an
    [Error]. *)
Theorem queryFn_outcomes (s : settled) :
  (forall v, queryFn_rest s = inl v <-> carries s v) /\
  (forall message, s = Rejected (ErrorObject message) -> queryFn_rest s = inr message) /\
  (forall x, s = Rejected (NonError x) -> queryFn_rest s = inr "Failed to fetch data") /\
  (forall resp, s = Fulfilled resp -> ok resp = false ->
     queryFn_rest s = inr ("HTTP error! status: " +:+ decimal (status resp))) /\
  (forall resp message, s = Fulfilled resp -> ok resp = true ->
     body resp = BodyError (ErrorObject message) -> queryFn_rest s = inr message) /\
  (forall resp x, s = Fulfilled resp -> ok resp = true ->
     body resp = BodyError (NonError x) -> queryFn_rest s = inr "Failed to fetch data").
Proof.
  split; [|repeat split].
  - intros v. split.
    + unfold queryFn_rest. destruct s as [[m|x]|resp]; try discriminate.
      destruct (ok resp) eqn:Hok; cbn; [|discriminate].
      destruct (body resp) as [v'|[m|x]] eqn:Hb; try discriminate.
      intros [= ->]. exists resp. now repeat split.
    + intros (resp & -> & Hok & Hb). unfold queryFn_rest. now rewrite Hok, Hb.
  - intros message ->. reflexivity.
  - intros x ->. reflexivity.
  - intros resp -> Hok. unfold queryFn_rest. now rewrite Hok.
  - intros resp message -> Hok Hb. unfold queryFn_rest. now rewrite Hok, Hb.
  - intros resp x -> Hok Hb. unfold queryFn_rest. now rewrite Hok, Hb.
Qed.

Lemma queryFn_outcomes_witness :
  queryFn_rest (Fulfilled {| status := 500; body := BodyJson JNull |})
  = inr "HTTP error! status: 500".
Proof.
  exact (proj1 (proj2 (proj2 (proj2
    (queryFn_outcomes (Fulfilled {| status := 500; body := BodyJson JNull |})))))
      _ eq_refl eq_refl).
Defined.

End QueryExtra.

(** * Components of useFetch share the cache and nothing else *)

Module FetchIsolation.
Import JS Http Fetch FetchShape.

Lemma effect_other i s url w j :
  j <> i -> (j < length (instances w))%nat ->
  instances (useFetch_effect i s url w) !! j = instances w !! j.
Proof.
  intros Hne Hlt. unfold useFetch_effect.
  destruct (fetchData_start _ _ _) as [r h]; cbn.
  destruct (decide (i = length (instances w))).
  - now apply lookup_app_l.
  - now apply list_lookup_insert_ne.
Qed.

(** X18. An event changes the state of the component it is about and
    of no other: a mount leaves the components already there as they
    are, a render changes only the component that renders, an answer
    changes only the owner of the request, and an unmount changes no
    state at all. *)
Theorem other_components_untouched (w : world) (e : event) (i : nat) :
  (i < length (instances w))%nat ->
  ~ concerns w e i ->
  state_of (step w e) i = state_of w i.
Proof.
  intros Hlt Hn. unfold state_of. destruct e as [url|j url|j|k s]; cbn in *.
  - rewrite effect_other; [reflexivity|lia|exact Hlt].
  - destruct (instances w !! j) as [inst|]; [|reflexivity].
    destruct (alive inst && negb (url =? url_arg inst)%string); [|reflexivity].
    rewrite effect_other; [reflexivity|congruence|exact Hlt].
  - destruct (instances w !! j) as [inst|] eqn:Hj; [|reflexivity].
    destruct (alive inst); [|reflexivity]. cbn.
    destruct (decide (j = i)) as [->|Hne].
    + rewrite list_lookup_insert_eq by exact Hlt. now rewrite Hj.
    + now rewrite list_lookup_insert_ne.
  - destruct (pending w !! k) as [r|]; [|reflexivity].
    destruct (instances w !! owner r) as [inst|]; [|reflexivity].
    destruct (fetchData_resume _ _ _ _) as [o h]; cbn.
    rewrite list_lookup_insert_ne; [reflexivity|].
    intros E. apply Hn. exists r. now split.
Qed.

Lemma other_components_untouched_witness :
  state_of (step (run [Mount "/a"; Mount "/b"]) (Settle 1 (ok200 (int 2)))) 0
  = state_of (run [Mount "/a"; Mount "/b"]) 0.
Proof.
  apply other_components_untouched.
  - apply Nat.ltb_lt. reflexivity.
  - intros (r & Hr & Ho). vm_compute in Hr. injection Hr as <-. discriminate Ho.
Defined.

End FetchIsolation.
